(** * FRED economic-indicators ETL: the transform stage and its orchestration

    A shallow embedding of [src/etl_pipeline.py] ([FredETLPipeline]).

    Numeric model.  A pandas [float64] cell is either a finite number, one of
    the two infinities, or NaN (pandas' missing marker).  Finite doubles are
    idealised as real numbers, which the square root of the standard deviation
    asks for: rounding and overflow are not modelled, and the two IEEE zeros
    are identified (a zero divisor counts as [+0]; the sign of an infinity
    never survives [transform_data], whose last step sends both infinities to
    NaN).  The special values follow IEEE 754.  Dates are integers (days since
    1970-01-01 in the examples).

    Reading the statements against binary64.  A finite result of the model
    is the value, in exact arithmetic, of the expression that the code
    evaluates in binary64; the stored double differs from it by the rounding
    of the operations.  Three kinds of statement would not survive the
    passage to binary64 unguarded, and are guarded:
    - a statement that a cell is a number (not missing) needs the operations
      behind it not to overflow, since an overflow gives an infinity that the
      last step of [transform_data] turns into NaN.  Such statements carry a
      range hypothesis ([quotient_in_range], [in_range]) wide enough for real
      data and far enough from [2^1024] that no intermediate result of the
      binary64 computation leaves the finite range;
    - a statement that rests on the test [std_val > 0] failing on equal
      values needs the mean of the values to be computed without rounding
      ([sum_is_exact]): the binary64 mean of [0.1, 0.1, 0.1] is
      [0.10000000000000002], the standard deviation is then positive and the
      z-scores are not 0;
    - a statement that a rolling average is the mean of its window needs the
      running sum to be exact ([small_integer]): where it rounds, what pandas
      stores depends on the values that have left the window as well.
    The last part of the file evaluates the same expressions over binary64
    numbers at inputs on both sides of these guards. *)

From Stdlib Require Import String.
From Stdlib Require Import Reals ROrderedType Lra Lia ZArith Bool Arith List.
From Stdlib Require Import Ascii Permutation Sorted.
From Stdlib Require Floats.
Import ListNotations.

Local Open Scope R_scope.

(** * Part I: the model *)

(** ** IEEE-style cells *)

Inductive float64 : Type :=
| Fin (r : R)
| PInf
| NInf
| NaN.

Definition isna (x : float64) : bool :=
  match x with NaN => true | _ => false end.

Definition notna (x : float64) : bool := negb (isna x).

Definition isinf (x : float64) : bool :=
  match x with PInf | NInf => true | _ => false end.

Definition isfinite (x : float64) : bool :=
  match x with Fin _ => true | _ => false end.

(** The real carried by a finite cell (0 elsewhere; only used on finite cells). *)
Definition to_R (x : float64) : R :=
  match x with Fin r => r | _ => 0 end.

(** Sign of a real, as a three-way comparison with 0. *)
Definition Rsign (r : R) : comparison := Rcompare r 0.

Definition fneg (x : float64) : float64 :=
  match x with
  | Fin a => Fin (- a)
  | PInf => NInf
  | NInf => PInf
  | NaN => NaN
  end.

Definition fadd (x y : float64) : float64 :=
  match x, y with
  | NaN, _ | _, NaN => NaN
  | Fin a, Fin b => Fin (a + b)
  | PInf, NInf | NInf, PInf => NaN
  | PInf, _ | _, PInf => PInf
  | NInf, _ | _, NInf => NInf
  end.

Definition fsub (x y : float64) : float64 := fadd x (fneg y).

(** An infinity times a finite number: the sign of the product, NaN at 0. *)
Definition inf_times (positive : bool) (b : R) : float64 :=
  match Rsign b with
  | Eq => NaN
  | Gt => if positive then PInf else NInf
  | Lt => if positive then NInf else PInf
  end.

Definition fmul (x y : float64) : float64 :=
  match x, y with
  | NaN, _ | _, NaN => NaN
  | Fin a, Fin b => Fin (a * b)
  | PInf, Fin b | Fin b, PInf => inf_times true b
  | NInf, Fin b | Fin b, NInf => inf_times false b
  | PInf, PInf | NInf, NInf => PInf
  | PInf, NInf | NInf, PInf => NInf
  end.

Definition fdiv (x y : float64) : float64 :=
  match x, y with
  | NaN, _ | _, NaN => NaN
  | Fin a, Fin b =>
      match Rsign b with
      | Eq => match Rsign a with
              | Eq => NaN
              | Gt => PInf
              | Lt => NInf
              end
      | _ => Fin (a / b)
      end
  | Fin _, _ => Fin 0
  | PInf, Fin b => match Rsign b with Lt => NInf | _ => PInf end
  | NInf, Fin b => match Rsign b with Lt => PInf | _ => NInf end
  | _, _ => NaN
  end.

Definition fsqrt (x : float64) : float64 :=
  match x with
  | Fin a => match Rsign a with Lt => NaN | _ => Fin (sqrt a) end
  | PInf => PInf
  | _ => NaN
  end.

(** Comparisons; every comparison with NaN is false. *)
Definition flt (x y : float64) : bool :=
  match x, y with
  | NaN, _ | _, NaN => false
  | Fin a, Fin b => match Rcompare a b with Lt => true | _ => false end
  | NInf, NInf | PInf, _ | Fin _, NInf => false
  | NInf, _ | Fin _, PInf => true
  end.

Definition fgt (x y : float64) : bool := flt y x.

Definition feq (x y : float64) : bool :=
  match x, y with
  | Fin a, Fin b => match Rcompare a b with Eq => true | _ => false end
  | PInf, PInf | NInf, NInf => true
  | _, _ => false
  end.

(** [numpy.sum] over a column (the order is immaterial in exact arithmetic). *)
Definition fsum (xs : list float64) : float64 := fold_right fadd (Fin 0) xs.

Definition of_nat (n : nat) : float64 := Fin (INR n).

(** ** pandas Series operations used by the transform

    A Series is the list of its cells in row order.  Every Series below is
    derived from the one [value] column, so index alignment is positional. *)

Fixpoint zip_with {A B C : Type} (f : A -> B -> C) (xs : list A) (ys : list B) : list C :=
  match xs, ys with
  | x :: xs', y :: ys' => f x y :: zip_with f xs' ys'
  | _, _ => []
  end.

(** [Series.shift(periods)]: rows move down, the first [periods] cells are NaN. *)
Definition shift (periods : nat) (xs : list float64) : list float64 :=
  firstn (length xs) (repeat NaN periods ++ xs).

(** [Series.pct_change(periods)]: [data / data.shift(periods) - 1].
    (Older pandas forward-fills NaN cells first; the frames reaching the
    transform carry no NaN value, see [dropna].) *)
Definition pct_change (periods : nat) (xs : list float64) : list float64 :=
  map (fun q => fsub q (Fin 1)) (zip_with fdiv xs (shift periods xs)).

(** [series * c] and the other scalar broadcasts. *)
Definition mul_scalar (xs : list float64) (c : float64) : list float64 :=
  map (fun x => fmul x c) xs.

Definition sub_scalar (xs : list float64) (c : float64) : list float64 :=
  map (fun x => fsub x c) xs.

Definition div_scalar (xs : list float64) (c : float64) : list float64 :=
  map (fun x => fdiv x c) xs.

(** Rolling windows first turn infinite cells into NaN. *)
Definition prep_values (xs : list float64) : list float64 :=
  map (fun x => if isinf x then NaN else x) xs.

(** The cells at positions [max 0 (i + 1 - w) .. i]. *)
Definition window {A : Type} (w i : nat) (xs : list A) : list A :=
  skipn (S i - w) (firstn (S i) xs).

(** [Series.rolling(window=w, min_periods=minp).mean()]: the mean of the
    non-NaN cells of each window, NaN when fewer than [minp] of them.  (pandas
    keeps a running sum that it updates as the window moves; in exact
    arithmetic that is the sum of the cells of the window.) *)
Definition rolling_mean (w minp : nat) (xs : list float64) : list float64 :=
  map (fun i =>
         let obs := filter notna (window w i (prep_values xs)) in
         if (minp <=? length obs)%nat
         then fdiv (fsum obs) (of_nat (length obs))
         else NaN)
      (seq 0 (length xs)).

(** [Series.mean()] (skipna): NaN cells are left out. *)
Definition mean (xs : list float64) : float64 :=
  let obs := filter notna xs in
  if (0 <? length obs)%nat then fdiv (fsum obs) (of_nat (length obs)) else NaN.

Definition fsq (x : float64) : float64 := fmul x x.

(** [Series.std()] (skipna, ddof = 1): NaN unless two cells at least are present. *)
Definition std (xs : list float64) : float64 :=
  let obs := filter notna xs in
  let count := length obs in
  if (count <=? 1)%nat then NaN
  else
    let avg := fdiv (fsum obs) (of_nat count) in
    let sqr := map (fun v => fsq (fsub avg v)) obs in
    fsqrt (fdiv (fsum sqr) (of_nat (count - 1))).

Definition count_if (p : float64 -> bool) (xs : list float64) : nat :=
  length (filter p xs).

(** The rank of [v] with [method='average']: the cells equal to [v] occupy the
    ordinal positions [less + 1 .. less + ties] of the ascending order and each
    receives their average.  NaN cells keep NaN ([na_option='keep']). *)
Definition rank_average (xs : list float64) (v : float64) : float64 :=
  if isna v then NaN
  else
    let obs := filter notna xs in
    let less := count_if (fun w => flt w v) obs in
    let ties := count_if (fun w => feq w v) obs in
    fdiv (fsum (map (fun k => of_nat (less + k)) (seq 1 ties))) (of_nat ties).

(** [Series.rank(pct=...)]; with [pct] the ranks are divided by the number of
    non-NaN cells. *)
Definition rank (pct : bool) (xs : list float64) : list float64 :=
  map (fun v =>
         let r := rank_average xs v in
         if pct then fdiv r (of_nat (length (filter notna xs))) else r)
      xs.

(** ** Frames *)

(** A row of the frame built by [extract_series]. *)
Record observation : Type := mk_observation {
  series_id : string;
  observation_date : Z;
  value : float64
}.

(** A row of the frame returned by [transform_data]: the three input columns
    and the six derived ones. *)
Record metrics_row : Type := mk_metrics_row {
  row_series_id : string;
  row_observation_date : Z;
  row_value : float64;
  mom_change : float64;
  yoy_change : float64;
  rolling_avg_3m : float64;
  rolling_avg_12m : float64;
  z_score : float64;
  percentile_rank : float64
}.

(** [df.dropna(subset=['value'])] *)
Definition dropna (df : list observation) : list observation :=
  filter (fun r => notna (value r)) df.

(** [df.sort_values('observation_date')]: ascending by date.  Rows with equal
    dates keep their order here, while pandas' default sort may exchange them;
    the data model has dates unique per series, and the statements that
    depend on the order of such rows assume it. *)
Fixpoint insert_by_date (r : observation) (rows : list observation) : list observation :=
  match rows with
  | [] => [r]
  | r' :: rest =>
      if (observation_date r <=? observation_date r')%Z
      then r :: rows
      else r' :: insert_by_date r rest
  end.

Definition sort_values (df : list observation) : list observation :=
  fold_right insert_by_date [] df.

(** Column assignment [df[name] = series]: a row the series has no cell for
    receives NaN. *)
Definition cell (col : list float64) (i : nat) : float64 := nth i col NaN.

(** The frame before the final replacement: lines 174-199 of the source. *)
Definition add_metrics (df : list observation) : list metrics_row :=
  let df := sort_values df in
  let v := map value df in
  let mom := mul_scalar (pct_change 1 v) (Fin 100) in
  let yoy := if (12 <? length df)%nat
             then mul_scalar (pct_change 12 v) (Fin 100)
             else mul_scalar (pct_change 4 v) (Fin 100) in
  let avg3 := rolling_mean 3 1 v in
  let avg12 := rolling_mean 12 1 v in
  let mean_val := mean v in
  let std_val := std v in
  let z := if fgt std_val (Fin 0)
           then div_scalar (sub_scalar v mean_val) std_val
           else map (fun _ => Fin 0) v in
  let pr := mul_scalar (rank true v) (Fin 100) in
  map (fun ir : nat * observation =>
         let (i, r) := ir in
         mk_metrics_row (series_id r) (observation_date r) (value r)
           (cell mom i) (cell yoy i) (cell avg3 i) (cell avg12 i)
           (cell z i) (cell pr i))
      (combine (seq 0 (length df)) df).

(** [x] after [replace([np.inf, -np.inf], np.nan)]. *)
Definition replace_inf (x : float64) : float64 :=
  if isinf x then NaN else x.

(** [df.replace([np.inf, -np.inf], np.nan)] over the whole frame; the date and
    the identifier columns hold no float and are left as they are. *)
Definition replace_inf_row (r : metrics_row) : metrics_row :=
  mk_metrics_row (row_series_id r) (row_observation_date r)
    (replace_inf (row_value r))
    (replace_inf (mom_change r)) (replace_inf (yoy_change r))
    (replace_inf (rolling_avg_3m r)) (replace_inf (rolling_avg_12m r))
    (replace_inf (z_score r)) (replace_inf (percentile_rank r)).

(** [df.empty] *)
Definition empty {A : Type} (df : list A) : bool :=
  match df with [] => true | _ :: _ => false end.

(** [FredETLPipeline.transform_data]; [None] is Python's [None], both as the
    absent input and as the empty-result signal. *)
Definition transform_data (df : option (list observation)) : option (list metrics_row) :=
  match df with
  | None => None
  | Some rows =>
      if empty rows then None
      else Some (map replace_inf_row (add_metrics rows))
  end.

(** ** Orchestration

    The FRED client and the database engine are external collaborators; a call
    either returns or raises.  Printing, the courtesy delay and the timestamps
    are left out. *)

Inductive exn : Type :=
| KeyError (key : string)
| CollaboratorError (message : string).

Inductive result (A : Type) : Type :=
| Ok (a : A)
| Raise (e : exn).

Arguments Ok {A} a.
Arguments Raise {A} e.

(** Series metadata as FRED returns it: a dictionary of strings. *)
Definition series_info : Type := list (string * string).

(** [info.get(key, default)] *)
Fixpoint info_get (info : series_info) (key default : string) : string :=
  match info with
  | [] => default
  | (k, x) :: rest => if String.eqb k key then x else info_get rest key default
  end.

(** The three upsert statements sent to the engine.  The metadata upsert
    also carries [last_updated = datetime.now()], which is left out: the
    model has no clock, and nothing below is stated about that column. *)
Inductive statement : Type :=
| UpsertMetadata (sid title frequency units seasonal_adj category : string)
| UpsertObservation (sid : string) (date : Z) (x : float64)
| UpsertMetrics (row : metrics_row).

Class Collaborators (db : Type) : Type := {
  (** [fred.get_series(series_id, observation_start=start_date)] *)
  fred_get_series : string -> string -> result (list (Z * float64));
  (** [fred.get_series_info(series_id)] *)
  fred_get_series_info : string -> result series_info;
  (** [conn.execute(statement, parameters)] *)
  execute : statement -> db -> result db
}.

(** [self.indicators]: series identifier, title and category, in insertion order. *)
Definition indicators : list (string * (string * string)) :=
  [ ("GDP", ("Gross Domestic Product", "Output & Growth"));
    ("INDPRO", ("Industrial Production Index", "Output & Growth"));
    ("UNRATE", ("Unemployment Rate", "Labor Market"));
    ("ICSA", ("Initial Jobless Claims", "Labor Market"));
    ("PAYEMS", ("Total Nonfarm Payrolls", "Labor Market"));
    ("CPIAUCSL", ("Consumer Price Index", "Inflation"));
    ("PCEPI", ("PCE Price Index", "Inflation"));
    ("FEDFUNDS", ("Federal Funds Rate", "Monetary Policy"));
    ("T10Y2Y", ("10Y-2Y Treasury Spread", "Monetary Policy"));
    ("DGS10", ("10-Year Treasury Rate", "Monetary Policy"));
    ("UMCSENT", ("Consumer Sentiment Index", "Consumer"));
    ("RSXFS", ("Retail Sales", "Consumer"));
    ("HOUST", ("Housing Starts", "Housing")) ]%string.

(** [self.indicators[series_id]] *)
Fixpoint indicator (catalog : list (string * (string * string))) (sid : string)
  : option (string * string) :=
  match catalog with
  | [] => None
  | (k, x) :: rest => if String.eqb k sid then Some x else indicator rest sid
  end.

Section Pipeline.

Context {db : Type} `{Collaborators db}.

(** [FredETLPipeline.extract_series]; [None] stands for the pair [(None, None)]
    returned when a collaborator raises. *)
Definition extract_series (sid start_date : string) : option (list observation * series_info) :=
  match fred_get_series sid start_date with
  | Raise _ => None
  | Ok data =>
      match fred_get_series_info sid with
      | Raise _ => None
      | Ok info =>
          let df := map (fun dv : Z * float64 => mk_observation sid (fst dv) (snd dv)) data in
          Some (dropna df, info)
      end
  end.

(** One [with self.engine.connect() as conn: ...; conn.commit()] block: the
    statements take effect together, or not at all when one of them raises. *)
Fixpoint execute_all (stmts : list statement) (d : db) : result db :=
  match stmts with
  | [] => Ok d
  | s :: rest =>
      match execute s d with
      | Ok d' => execute_all rest d'
      | Raise e => Raise e
      end
  end.

Definition transaction (stmts : list statement) (d : db) : result unit * db :=
  match execute_all stmts d with
  | Ok d' => (Ok tt, d')
  | Raise e => (Raise e, d)
  end.

Definition load_metadata (sid : string) (info : series_info) (category : string) (d : db)
  : result unit * db :=
  match indicator indicators sid with
  | None => (Raise (KeyError sid), d)
  | Some (title, _) =>
      transaction
        [UpsertMetadata sid title
           (info_get info "frequency_short" "M")
           (info_get info "units" EmptyString)
           (info_get info "seasonal_adjustment_short" EmptyString)
           category] d
  end.

Definition load_observations (df : list metrics_row) (d : db) : result unit * db :=
  transaction
    (map (fun r => UpsertObservation (row_series_id r) (row_observation_date r) (row_value r)) df)
    d.

Definition load_metrics (df : list metrics_row) (d : db) : result unit * db :=
  transaction (map UpsertMetrics df) d.

(** [FredETLPipeline.process_series] *)
Definition process_series (sid : string) (d : db) : result bool * db :=
  match indicator indicators sid with
  | None => (Raise (KeyError sid), d)
  | Some (_, category) =>
      match extract_series sid "2000-01-01" with
      | None => (Ok false, d)
      | Some (df, info) =>
          match transform_data (Some df) with
          | None => (Ok false, d)
          | Some df_transformed =>
              match load_metadata sid info category d with
              | (Raise e, d1) => (Raise e, d1)
              | (Ok _, d1) =>
                  match load_observations df_transformed d1 with
                  | (Raise e, d2) => (Raise e, d2)
                  | (Ok _, d2) =>
                      match load_metrics df_transformed d2 with
                      | (Raise e, d3) => (Raise e, d3)
                      | (Ok _, d3) => (Ok true, d3)
                      end
                  end
              end
          end
      end
  end.

(** The loop of [run_full_pipeline] over the remaining identifiers. *)
Fixpoint run_series (ids : list string) (success_count fail_count : nat) (d : db)
  : (nat * nat) * db :=
  match ids with
  | [] => ((success_count, fail_count), d)
  | sid :: rest =>
      match process_series sid d with
      | (Ok true, d') => run_series rest (S success_count) fail_count d'
      | (Ok false, d') => run_series rest success_count (S fail_count) d'
      | (Raise _, d') => run_series rest success_count (S fail_count) d'
      end
  end.

(** [FredETLPipeline.run_full_pipeline] *)
Definition run_full_pipeline (d : db) : (nat * nat) * db :=
  run_series (map fst indicators) 0 0 d.

End Pipeline.

(** * Part II: vocabulary of the statements *)

(** One cell of [pct_change(periods) * 100]. *)
Definition pct_cell (cur prev : float64) : float64 :=
  fmul (fsub (fdiv cur prev) (Fin 1)) (Fin 100).

(** The six derived columns of [add_metrics], named, over the sorted [value]
    column [v]. *)
Definition mom_column (v : list float64) : list float64 :=
  mul_scalar (pct_change 1 v) (Fin 100).

Definition yoy_lag (n : nat) : nat := if (12 <? n)%nat then 12%nat else 4%nat.

Definition yoy_column (v : list float64) : list float64 :=
  mul_scalar (pct_change (yoy_lag (length v)) v) (Fin 100).

Definition z_column (v : list float64) : list float64 :=
  if fgt (std v) (Fin 0)
  then div_scalar (sub_scalar v (mean v)) (std v)
  else map (fun _ => Fin 0) v.

Definition pr_column (v : list float64) : list float64 :=
  mul_scalar (rank true v) (Fin 100).

(** Row [i] of [add_metrics], from row [r] of the sorted frame. *)
Definition metrics_at (v : list float64) (i : nat) (r : observation) : metrics_row :=
  mk_metrics_row (series_id r) (observation_date r) (value r)
    (cell (mom_column v) i) (cell (yoy_column v) i)
    (cell (rolling_mean 3 1 v) i) (cell (rolling_mean 12 1 v) i)
    (cell (z_column v) i) (cell (pr_column v) i).

(** Ascending dates, each row against all the later ones. *)
Inductive sorted_by_date : list observation -> Prop :=
| sorted_nil : sorted_by_date []
| sorted_cons (r : observation) (rows : list observation) :
    Forall (fun r' => (observation_date r <= observation_date r')%Z) rows ->
    sorted_by_date rows ->
    sorted_by_date (r :: rows).

(** The six derived cells of a row, in column order. *)
Definition derived_fields (r : metrics_row) : list float64 :=
  [mom_change r; yoy_change r; rolling_avg_3m r; rolling_avg_12m r;
   z_score r; percentile_rank r].

(** What the replacement does to one cell. *)
Definition replaced (before after : float64) : Prop :=
  (isinf before = true -> after = NaN) /\
  (isinf before = false -> after = before) /\
  isinf after = false.

Definition Rsum (rs : list R) : R := fold_right Rplus 0 rs.

(** The mean of [rs[max 0 (i - lookback) .. i]], as the specification writes
    the rolling averages. *)
Definition window_mean (lookback : nat) (rs : list R) (i : nat) : R :=
  let lo := (i - lookback)%nat in
  Rsum (firstn (i + 1 - lo) (skipn lo rs)) / INR (i + 1 - lo).

Definition less_count (v : list float64) (x : float64) : nat :=
  count_if (fun w => flt w x) v.

Definition ties_count (v : list float64) (x : float64) : nat :=
  count_if (fun w => feq w x) v.

(** The percentile rank of [x] within [v] in closed form: the average of the
    ordinal positions [less + 1 .. less + ties], over the length, times 100. *)
Definition percentile (v : list float64) (x : float64) : R :=
  (INR (less_count v x) + (INR (ties_count v x) + 1) / 2) / INR (length v) * 100.

(** Ranges.  Binary64 holds the finite numbers of magnitude below [2^1024].
    A value [in_range bound] is a finite number of magnitude at most [bound];
    [float_range] leaves room for the sum of a window of twelve such values,
    [square_range] for the sum of the squares of a column of them. *)
Definition float_range : R := 2 ^ 1000.

Definition square_range : R := 2 ^ 400.

Definition in_range (bound : R) (x : float64) : Prop :=
  match x with
  | Fin r => Rabs r <= bound
  | _ => False
  end.

(** The quotient [cur / prev] of two finite values stays within
    [float_range], so that neither it nor [(cur / prev - 1) * 100] overflows
    in binary64 (no condition on the special values). *)
Definition quotient_in_range (cur prev : float64) : Prop :=
  match cur, prev with
  | Fin a, Fin b => Rabs a <= float_range * Rabs b
  | _, _ => True
  end.

(** The sum of [n] cells equal to [x] is computed without rounding in
    binary64, whatever the order of the additions: one cell, an infinite
    value, or an integer [m] with [n * |m| <= 2^53] (every partial sum is
    then an integer that binary64 holds exactly). *)
Definition sum_is_exact (x : float64) (n : nat) : Prop :=
  n = 1%nat \/
  match x with
  | Fin r => exists m : Z, r = IZR m /\ (Z.of_nat n * Z.abs m <= 2 ^ 53)%Z
  | _ => True
  end.

(** An integer of magnitude at most [2^49]: any twelve of them add up
    without rounding in binary64, in whatever order, so the running sum of a
    window is exact and its mean is rounded once, by the division. *)
Definition small_integer (x : float64) : Prop :=
  exists m : Z, x = Fin (IZR m) /\ (Z.abs m <= 2 ^ 49)%Z.

(** Why a cell of [pct_change(periods) * 100] is missing at row [i] of the
    output: the row has no row [periods] earlier, or the value there is zero,
    or the value of the row itself is infinite. *)
Definition change_undefined (periods : nat) (v : list float64) (i : nat) : Prop :=
  (i < periods)%nat \/ nth (i - periods) v NaN = Fin 0 \/ isinf (nth i v NaN) = true.

(** The claim C1 as the specification words it: [mom_change] is missing at
    row 0 and nowhere else, [yoy_change] at the first [L] rows and nowhere
    else. *)
Definition changes_missing_only_at_start (df : list observation) : Prop :=
  forall out, transform_data (Some df) = Some out ->
  forall i row, nth_error out i = Some row ->
    (mom_change row = NaN <-> i = 0%nat) /\
    (yoy_change row = NaN <-> (i < yoy_lag (length df))%nat).

(** A zero followed by a five. *)
Definition zero_base_series : list observation :=
  [ mk_observation "T10Y2Y" 19723 (Fin 0); mk_observation "T10Y2Y" 19724 (Fin 5) ].

(** The claim C2 as the specification words it: on a series whose values are
    all equal every [z_score] is 0 and every [percentile_rank] is 50. *)
Definition constant_series_claim (df : list observation) : Prop :=
  (forall r r', In r df -> In r' df -> value r = value r') ->
  forall out, transform_data (Some df) = Some out ->
  forall i row, nth_error out i = Some row ->
    z_score row = Fin 0 /\ percentile_rank row = Fin 50.

Definition two_equal_values : list observation :=
  [ mk_observation "FEDFUNDS" 19723 (Fin 5); mk_observation "FEDFUNDS" 19754 (Fin 5) ].

(** The claim C4 as the specification words it: both rolling averages are
    defined at every row of the output. *)
Definition rolling_averages_defined (df : list observation) : Prop :=
  forall out, transform_data (Some df) = Some out ->
  forall i row, nth_error out i = Some row ->
    rolling_avg_3m row <> NaN /\ rolling_avg_12m row <> NaN.

Definition infinite_observation : observation :=
  mk_observation "GDP" 19723 PInf.

(** The claim C6 as the specification words it, for the one-row frame [[o]]. *)
Definition single_observation_claim (o : observation) : Prop :=
  exists row,
    transform_data (Some [o]) = Some [row] /\
    mom_change row = NaN /\
    yoy_change row = NaN /\
    rolling_avg_3m row = value o /\
    rolling_avg_12m row = value o /\
    z_score row = Fin 0 /\
    percentile_rank row = Fin 100.

(** The three-month scenario of C7: 100, 110, 121 on three increasing dates. *)
Definition three_months (sid : string) (d0 d1 d2 : Z) : list observation :=
  [ mk_observation sid d0 (Fin 100);
    mk_observation sid d1 (Fin 110);
    mk_observation sid d2 (Fin 121) ].

(** A run without network or database: FRED answers every request with one
    missing observation and the engine records the statements it is sent. *)
Definition offline : Collaborators (list statement) :=
  {| fred_get_series := fun _ _ => Ok [(19723%Z, NaN)];
     fred_get_series_info := fun _ => Ok [("units", "Percent")]%string;
     execute := fun s d => Ok (s :: d) |}.

Definition zero_base_out : list metrics_row :=
  map replace_inf_row (add_metrics zero_base_series).

Definition infinite_out : list metrics_row :=
  map replace_inf_row (add_metrics [infinite_observation]).

Definition spring_2024 : list observation :=
  three_months "CPIAUCSL" 19723 19754 19783.

(** * Part III: lemmas *)

(** ** Signs and comparisons *)

Lemma Rsign_pos (r : R) : 0 < r -> Rsign r = Gt.
Proof.
  intros H. unfold Rsign. destruct (Rcompare_spec r 0); try lra; reflexivity.
Qed.

Lemma Rsign_zero : Rsign 0 = Eq.
Proof.
  unfold Rsign. destruct (Rcompare_spec 0 0); try lra; reflexivity.
Qed.

Lemma Rsign_Eq_inv (r : R) : Rsign r = Eq -> r = 0.
Proof.
  unfold Rsign. destruct (Rcompare_spec r 0); congruence.
Qed.

Lemma Rcompare_refl (r : R) : Rcompare r r = Eq.
Proof.
  destruct (Rcompare_spec r r); try lra; reflexivity.
Qed.

Lemma INR_S_pos (n : nat) : 0 < INR (S n).
Proof. apply lt_0_INR. lia. Qed.

Lemma fdiv_fin (a b : R) : b <> 0 -> fdiv (Fin a) (Fin b) = Fin (a / b).
Proof.
  intros Hb. unfold fdiv.
  destruct (Rsign b) eqn:E; try reflexivity.
  apply Rsign_Eq_inv in E. contradiction.
Qed.

Lemma flt_irrefl (x : float64) : flt x x = false.
Proof.
  destruct x; simpl; try reflexivity. now rewrite Rcompare_refl.
Qed.

Lemma feq_refl (x : float64) : notna x = true -> feq x x = true.
Proof.
  destruct x; simpl; try reflexivity; try discriminate.
  intros _. now rewrite Rcompare_refl.
Qed.

Lemma flt_feq_excl (w v : float64) : flt w v = true -> feq w v = false.
Proof.
  destruct w, v; simpl; try reflexivity; try discriminate.
  destruct (Rcompare r r0); congruence.
Qed.

(** ** Lengths and cells of the derived columns *)

Lemma zip_with_length {A B C : Type} (f : A -> B -> C) (xs : list A) (ys : list B) :
  length (zip_with f xs ys) = Nat.min (length xs) (length ys).
Proof.
  revert ys. induction xs as [|x xs IH]; intros [|y ys]; simpl; auto.
Qed.

Lemma zip_with_nth {A B C : Type} (f : A -> B -> C) (da : A) (db : B) (dc : C)
      (xs : list A) (ys : list B) (i : nat) :
  (i < length xs)%nat -> (i < length ys)%nat ->
  nth i (zip_with f xs ys) dc = f (nth i xs da) (nth i ys db).
Proof.
  revert ys i. induction xs as [|x xs IH]; intros [|y ys] [|i]; simpl; intros; try lia; auto.
  apply IH; lia.
Qed.

Lemma shift_length (p : nat) (xs : list float64) : length (shift p xs) = length xs.
Proof.
  unfold shift. rewrite length_firstn, length_app, repeat_length. lia.
Qed.

Lemma shift_nth (p : nat) (xs : list float64) (i : nat) :
  (i < length xs)%nat ->
  nth i (shift p xs) NaN = if (i <? p)%nat then NaN else nth (i - p) xs NaN.
Proof.
  intros Hi. unfold shift.
  rewrite nth_firstn. destruct (i <? length xs)%nat eqn:E; [|apply Nat.ltb_ge in E; lia].
  destruct (i <? p)%nat eqn:Ep.
  - apply Nat.ltb_lt in Ep. rewrite app_nth1 by (rewrite repeat_length; lia).
    apply nth_repeat.
  - apply Nat.ltb_ge in Ep. rewrite app_nth2 by (rewrite repeat_length; lia).
    now rewrite repeat_length.
Qed.

Lemma pct_change_length (p : nat) (xs : list float64) :
  length (pct_change p xs) = length xs.
Proof.
  unfold pct_change. rewrite length_map, zip_with_length, shift_length. lia.
Qed.

Lemma nth_map_lt {A B : Type} (f : A -> B) (da : A) (db : B) (l : list A) (i : nat) :
  (i < length l)%nat -> nth i (map f l) db = f (nth i l da).
Proof.
  revert i. induction l as [|a l IH]; intros [|i]; simpl; intros; try lia; auto.
  apply IH; lia.
Qed.

Lemma pct_change_cell (p : nat) (xs : list float64) (i : nat) :
  (i < length xs)%nat ->
  cell (mul_scalar (pct_change p xs) (Fin 100)) i =
  pct_cell (nth i xs NaN) (if (i <? p)%nat then NaN else nth (i - p) xs NaN).
Proof.
  intros Hi. unfold cell, mul_scalar, pct_change, pct_cell.
  rewrite nth_map_lt with (da := NaN)
    by (rewrite length_map, zip_with_length, shift_length; lia).
  rewrite nth_map_lt with (da := NaN)
    by (rewrite zip_with_length, shift_length; lia).
  rewrite zip_with_nth with (da := NaN) (db := NaN) by (rewrite ?shift_length; lia).
  now rewrite shift_nth by lia.
Qed.

Lemma map_seq_nth {A : Type} (f : nat -> A) (d : A) (n i : nat) :
  (i < n)%nat -> nth i (map f (seq 0 n)) d = f i.
Proof.
  intros Hi. rewrite nth_map_lt with (da := 0%nat) by (rewrite length_seq; lia).
  now rewrite seq_nth by lia.
Qed.

Lemma rolling_mean_length (w minp : nat) (xs : list float64) :
  length (rolling_mean w minp xs) = length xs.
Proof. unfold rolling_mean. now rewrite length_map, length_seq. Qed.

Lemma rank_length (pct : bool) (xs : list float64) : length (rank pct xs) = length xs.
Proof. unfold rank. now rewrite length_map. Qed.

Lemma insert_by_date_length (r : observation) (rows : list observation) :
  length (insert_by_date r rows) = S (length rows).
Proof.
  induction rows as [|r' rest IH]; simpl; auto.
  destruct (observation_date r <=? observation_date r')%Z; simpl; auto.
Qed.

Lemma sort_values_length (df : list observation) :
  length (sort_values df) = length df.
Proof.
  induction df as [|r df IH]; simpl; auto.
  now rewrite insert_by_date_length, IH.
Qed.

Lemma add_metrics_length (df : list observation) :
  length (add_metrics df) = length df.
Proof.
  unfold add_metrics.
  rewrite length_map, length_combine, length_seq, Nat.min_id.
  apply sort_values_length.
Qed.

(** ** The rows of the transformed frame *)

Lemma add_metrics_unfold (df : list observation) :
  add_metrics df =
  map (fun ir : nat * observation => metrics_at (map value (sort_values df)) (fst ir) (snd ir))
      (combine (seq 0 (length (sort_values df))) (sort_values df)).
Proof.
  unfold add_metrics, metrics_at, mom_column, yoy_column, yoy_lag, z_column, pr_column.
  rewrite length_map.
  apply map_ext. intros [i r]. simpl.
  destruct (12 <? length (sort_values df))%nat; reflexivity.
Qed.

Lemma combine_seq_nth_error {A : Type} (l : list A) (s i : nat) :
  nth_error (combine (seq s (length l)) l) i =
  option_map (fun r => ((s + i)%nat, r)) (nth_error l i).
Proof.
  revert s i. induction l as [|a l IH]; intros s [|i]; simpl; auto.
  - now rewrite Nat.add_0_r.
  - rewrite IH. destruct (nth_error l i); simpl; auto.
    now rewrite Nat.add_succ_r.
Qed.

Lemma map_combine_seq {A B : Type} (f : nat * A -> B) (g : A -> B) (l : list A) (s : nat) :
  (forall i a, f (i, a) = g a) ->
  map f (combine (seq s (length l)) l) = map g l.
Proof.
  intros Hfg. revert s. induction l as [|a l IH]; intros s; simpl; [reflexivity|].
  now rewrite Hfg, IH.
Qed.

Lemma add_metrics_nth_error (df : list observation) (i : nat) :
  nth_error (add_metrics df) i =
  option_map (metrics_at (map value (sort_values df)) i) (nth_error (sort_values df) i).
Proof.
  rewrite add_metrics_unfold, nth_error_map, combine_seq_nth_error.
  destruct (nth_error (sort_values df) i); reflexivity.
Qed.

Lemma transform_data_nonempty (df : list observation) :
  df <> [] ->
  transform_data (Some df) = Some (map replace_inf_row (add_metrics df)).
Proof.
  destruct df; simpl; congruence.
Qed.

Lemma transform_data_Some_inv (df : list observation) (out : list metrics_row) :
  transform_data (Some df) = Some out ->
  df <> [] /\ out = map replace_inf_row (add_metrics df).
Proof.
  destruct df; simpl; intros H; inversion H; split; congruence.
Qed.

(** Row [i] of the output is the replaced row [i] of [add_metrics], built from
    row [i] of the sorted input. *)
Lemma transform_data_row (df : list observation) (out : list metrics_row)
      (i : nat) (row : metrics_row) :
  transform_data (Some df) = Some out ->
  nth_error out i = Some row ->
  exists r,
    nth_error (sort_values df) i = Some r /\
    (i < length df)%nat /\
    row = replace_inf_row (metrics_at (map value (sort_values df)) i r).
Proof.
  intros Ht Hrow. apply transform_data_Some_inv in Ht. destruct Ht as [_ ->].
  rewrite nth_error_map, add_metrics_nth_error in Hrow.
  destruct (nth_error (sort_values df) i) as [r|] eqn:E; simpl in Hrow; [|discriminate].
  exists r. split; [reflexivity|]. split.
  - rewrite <- (sort_values_length df). apply nth_error_Some. congruence.
  - congruence.
Qed.

(** Conversely every position below the length holds a row. *)
Lemma transform_data_row_ex (df : list observation) (i : nat) :
  (i < length df)%nat ->
  exists r,
    nth_error (sort_values df) i = Some r /\
    nth_error (map replace_inf_row (add_metrics df)) i =
    Some (replace_inf_row (metrics_at (map value (sort_values df)) i r)).
Proof.
  intros Hi.
  destruct (nth_error (sort_values df) i) as [r|] eqn:E.
  - exists r. split; [reflexivity|].
    now rewrite nth_error_map, add_metrics_nth_error, E.
  - apply nth_error_None in E. rewrite sort_values_length in E. lia.
Qed.

(** ** Sorting by date *)

Lemma insert_by_date_Forall (P : observation -> Prop) (r : observation) (rows : list observation) :
  P r -> Forall P rows -> Forall P (insert_by_date r rows).
Proof.
  intros Hr Hrows. induction Hrows as [|r' rest Hr' Hrest IH]; simpl.
  - constructor; auto.
  - destruct (observation_date r <=? observation_date r')%Z; repeat constructor; auto.
Qed.

Lemma sort_values_Forall (P : observation -> Prop) (df : list observation) :
  Forall P df -> Forall P (sort_values df).
Proof.
  induction 1 as [|r df Hr Hdf IH]; simpl; [constructor|].
  apply insert_by_date_Forall; assumption.
Qed.

Lemma insert_by_date_In (r x : observation) (rows : list observation) :
  In x (insert_by_date r rows) <-> x = r \/ In x rows.
Proof.
  induction rows as [|r' rest IH]; simpl.
  - intuition congruence.
  - destruct (observation_date r <=? observation_date r')%Z; simpl; [intuition congruence|].
    rewrite IH. intuition congruence.
Qed.

Lemma insert_by_date_sorted (r : observation) (rows : list observation) :
  sorted_by_date rows -> sorted_by_date (insert_by_date r rows).
Proof.
  induction 1 as [|r' rest Hall Hs IH]; simpl.
  - repeat constructor.
  - destruct (observation_date r <=? observation_date r')%Z eqn:E.
    + apply Z.leb_le in E. constructor; [|constructor; assumption].
      constructor; [assumption|].
      eapply Forall_impl; [|exact Hall]. simpl. intros; lia.
    + apply Z.leb_gt in E. constructor; [|assumption].
      apply insert_by_date_Forall; [lia|assumption].
Qed.

Lemma sort_values_sorted (df : list observation) : sorted_by_date (sort_values df).
Proof.
  induction df as [|r df IH]; simpl; [constructor|].
  now apply insert_by_date_sorted.
Qed.

Lemma sort_values_In (df : list observation) (x : observation) :
  In x (sort_values df) <-> In x df.
Proof.
  induction df as [|r df IH]; simpl; [tauto|].
  rewrite insert_by_date_In, IH. intuition congruence.
Qed.

(** A frame already in strictly ascending date order is left as it is. *)
Lemma insert_by_date_head (r : observation) (rows : list observation) :
  Forall (fun r' => (observation_date r <= observation_date r')%Z) rows ->
  insert_by_date r rows = r :: rows.
Proof.
  destruct 1 as [|r' rest Hr' _]; simpl; [reflexivity|].
  apply Z.leb_le in Hr'. now rewrite Hr'.
Qed.

Lemma sort_values_sorted_id (df : list observation) :
  sorted_by_date df -> sort_values df = df.
Proof.
  induction 1 as [|r rows Hall Hs IH]; simpl; [reflexivity|].
  rewrite IH. now apply insert_by_date_head.
Qed.

(** ** Replacement of the infinities *)

Lemma replace_inf_not_inf (x : float64) : isinf (replace_inf x) = false.
Proof. destruct x; reflexivity. Qed.

Lemma replace_inf_finite (x : float64) : isfinite x = true -> replace_inf x = x.
Proof. unfold replace_inf. destruct x; simpl; congruence. Qed.

Lemma replace_inf_inf (x : float64) : isinf x = true -> replace_inf x = NaN.
Proof. unfold replace_inf. destruct x; simpl; congruence. Qed.

Lemma replace_inf_replaced (x : float64) : replaced x (replace_inf x).
Proof.
  unfold replaced, replace_inf. destruct x; simpl; repeat split; intros; congruence.
Qed.

(** ** Percent changes *)

Lemma Rsign_100 : Rsign 100 = Gt.
Proof. apply Rsign_pos. lra. Qed.

Lemma pct_cell_nan_prev (cur : float64) : pct_cell cur NaN = NaN.
Proof. destruct cur; reflexivity. Qed.

(** A percent change is missing in the output exactly when the base is zero or
    the current value is infinite. *)
Lemma pct_cell_missing (cur prev : float64) :
  notna cur = true -> notna prev = true ->
  (replace_inf (pct_cell cur prev) = NaN <-> prev = Fin 0 \/ isinf cur = true).
Proof.
  unfold pct_cell, replace_inf, fsub.
  destruct cur as [a| | |], prev as [b| | |]; simpl; try discriminate; intros _ _;
    try (split; [intros; right; reflexivity | reflexivity]);
    try (split; [discriminate | intros [H|H]; discriminate]).
  - destruct (Rsign b) eqn:Eb.
    + apply Rsign_Eq_inv in Eb. subst b.
      split; [intros; left; reflexivity | intros _].
      destruct (Rsign a); simpl; unfold inf_times; rewrite ?Rsign_100; reflexivity.
    + simpl. split; [discriminate|]. intros [H|H]; [|discriminate].
      inversion H; subst. rewrite Rsign_zero in Eb. discriminate.
    + simpl. split; [discriminate|]. intros [H|H]; [|discriminate].
      inversion H; subst. rewrite Rsign_zero in Eb. discriminate.
  - split; [intros; right; reflexivity | intros _].
    destruct (Rsign b); simpl; unfold inf_times; rewrite ?Rsign_100; reflexivity.
  - split; [intros; right; reflexivity | intros _].
    destruct (Rsign b); simpl; unfold inf_times; rewrite ?Rsign_100; reflexivity.
Qed.

Lemma nth_notna (v : list float64) (i : nat) :
  Forall (fun x => notna x = true) v -> (i < length v)%nat -> notna (nth i v NaN) = true.
Proof.
  intros Hall Hi. rewrite Forall_forall in Hall. apply Hall. now apply nth_In.
Qed.

(** Missing cells of [pct_change(periods) * 100] after the replacement. *)
Lemma pct_column_missing (p : nat) (v : list float64) (i : nat) :
  Forall (fun x => notna x = true) v -> (i < length v)%nat ->
  (replace_inf (cell (mul_scalar (pct_change p v) (Fin 100)) i) = NaN <->
   (i < p)%nat \/ nth (i - p) v NaN = Fin 0 \/ isinf (nth i v NaN) = true).
Proof.
  intros Hall Hi. rewrite pct_change_cell by assumption.
  destruct (i <? p)%nat eqn:E.
  - apply Nat.ltb_lt in E. rewrite pct_cell_nan_prev. simpl. tauto.
  - apply Nat.ltb_ge in E.
    rewrite pct_cell_missing by (apply nth_notna; auto; lia).
    split; [tauto|]. intros [H|H]; [lia|tauto].
Qed.

Lemma values_notna (df : list observation) :
  Forall (fun r => notna (value r) = true) df ->
  Forall (fun x => notna x = true) (map value (sort_values df)).
Proof.
  intros H. apply Forall_map. now apply sort_values_Forall.
Qed.

Lemma values_length (df : list observation) :
  length (map value (sort_values df)) = length df.
Proof. now rewrite length_map, sort_values_length. Qed.

(** ** Rolling means over finite values *)

Lemma fsum_Fin (rs : list R) : fsum (map Fin rs) = Fin (Rsum rs).
Proof.
  induction rs as [|r rs IH]; [reflexivity|].
  change (fadd (Fin r) (fsum (map Fin rs)) = Fin (r + Rsum rs)).
  now rewrite IH.
Qed.

Lemma filter_notna_Fin (rs : list R) : filter notna (map Fin rs) = map Fin rs.
Proof.
  induction rs as [|r rs IH]; simpl; [reflexivity|]. now rewrite IH.
Qed.

Lemma prep_values_Fin (rs : list R) : prep_values (map Fin rs) = map Fin rs.
Proof.
  unfold prep_values. rewrite map_map. reflexivity.
Qed.

Lemma window_map {A B : Type} (f : A -> B) (w i : nat) (xs : list A) :
  window w i (map f xs) = map f (window w i xs).
Proof.
  unfold window. now rewrite firstn_map, skipn_map.
Qed.

Lemma window_length {A : Type} (w i : nat) (xs : list A) :
  (i < length xs)%nat -> length (window w i xs) = (S i - (S i - w))%nat.
Proof.
  intros Hi. unfold window. rewrite length_skipn, length_firstn. lia.
Qed.

Lemma finite_values (v : list float64) :
  Forall (fun x => isfinite x = true) v -> v = map Fin (map to_R v).
Proof.
  induction 1 as [|x v Hx Hv IH]; simpl; [reflexivity|].
  destruct x; try discriminate. simpl. now rewrite <- IH.
Qed.

Lemma rolling_mean_finite (w : nat) (rs : list R) (i : nat) :
  (0 < w)%nat -> (i < length rs)%nat ->
  cell (rolling_mean w 1 (map Fin rs)) i = Fin (window_mean (w - 1) rs i).
Proof.
  intros Hw Hi. unfold cell, rolling_mean.
  rewrite map_seq_nth by (rewrite length_map; lia).
  rewrite prep_values_Fin, window_map, filter_notna_Fin, fsum_Fin, length_map.
  rewrite window_length by assumption.
  replace (1 <=? S i - (S i - w))%nat with true by (symmetry; apply Nat.leb_le; lia).
  unfold of_nat. rewrite fdiv_fin by (apply not_0_INR; lia).
  f_equal. unfold window_mean, window.
  replace (i - (w - 1))%nat with (S i - w)%nat by lia.
  replace (i + 1 - (S i - w))%nat with (S i - (S i - w))%nat by lia.
  rewrite firstn_skipn_comm.
  replace (S i - w + (S i - (S i - w)))%nat with (S i) by lia.
  reflexivity.
Qed.

(** ** Ranks *)

Lemma fsum_positions (less s t : nat) :
  fsum (map (fun k => of_nat (less + k)) (seq s t)) =
  Fin (INR t * INR less + INR t * INR s + INR t * (INR t - 1) / 2).
Proof.
  revert s. induction t as [|t IH]; intros s.
  - simpl. f_equal. lra.
  - change (fadd (of_nat (less + s)) (fsum (map (fun k => of_nat (less + k)) (seq (S s) t))) =
            Fin (INR (S t) * INR less + INR (S t) * INR s + INR (S t) * (INR (S t) - 1) / 2)).
    rewrite IH. unfold of_nat. cbv beta iota delta [fadd]. f_equal.
    rewrite plus_INR, !S_INR. field.
Qed.

Lemma rank_average_closed (xs : list float64) (v : float64) :
  notna v = true ->
  (0 < ties_count (filter notna xs) v)%nat ->
  rank_average xs v =
  Fin (INR (less_count (filter notna xs) v) + (INR (ties_count (filter notna xs) v) + 1) / 2).
Proof.
  intros Hv Hties. unfold rank_average, less_count, ties_count in *.
  set (obs := filter notna xs) in *.
  set (less := count_if (fun w => flt w v) obs) in *.
  set (ties := count_if (fun w => feq w v) obs) in *.
  assert (Ht : INR ties <> 0) by (apply not_0_INR; lia).
  replace (isna v) with false by (unfold notna in Hv; now destruct (isna v)).
  rewrite fsum_positions. unfold of_nat.
  rewrite fdiv_fin by assumption. f_equal.
  change (INR 1) with 1. now field.
Qed.

Lemma forall_notna_filter (v : list float64) :
  Forall (fun x => notna x = true) v -> filter notna v = v.
Proof.
  intros H. apply forallb_filter_id. now apply forallb_forall, Forall_forall.
Qed.

Lemma count_less_ties (v : list float64) (x : float64) :
  (less_count v x + ties_count v x <= length v)%nat.
Proof.
  unfold less_count, ties_count, count_if.
  induction v as [|w v IH]; simpl; [lia|].
  destruct (flt w x) eqn:E.
  - rewrite (flt_feq_excl _ _ E). simpl. lia.
  - destruct (feq w x); simpl; lia.
Qed.

Lemma ties_count_pos (v : list float64) (x : float64) :
  In x v -> notna x = true -> (0 < ties_count v x)%nat.
Proof.
  unfold ties_count, count_if. intros Hin Hx.
  induction v as [|w v IH]; simpl in *; [contradiction|].
  destruct Hin as [->|Hin].
  - rewrite (feq_refl _ Hx). simpl. lia.
  - destruct (feq w x); simpl; auto. lia.
Qed.

(** One cell of the percentile column of a NaN-free series. *)
Lemma pr_column_cell (v : list float64) (i : nat) :
  Forall (fun x => notna x = true) v -> (i < length v)%nat ->
  cell (pr_column v) i = Fin (percentile v (nth i v NaN)).
Proof.
  intros Hall Hi. unfold cell, pr_column, mul_scalar, rank.
  rewrite nth_map_lt with (da := NaN) by (rewrite length_map; lia).
  rewrite nth_map_lt with (da := NaN) by lia.
  assert (Hx : notna (nth i v NaN) = true) by now apply nth_notna.
  assert (Hin : In (nth i v NaN) v) by now apply nth_In.
  rewrite (forall_notna_filter v Hall).
  rewrite rank_average_closed;
    rewrite ?(forall_notna_filter v Hall); auto using ties_count_pos.
  unfold of_nat. rewrite fdiv_fin by (apply not_0_INR; lia).
  reflexivity.
Qed.

(** Every percentile rank lies between [100 / n] and [100]. *)
Lemma percentile_bounds (v : list float64) (x : float64) :
  In x v -> notna x = true ->
  100 / INR (length v) <= percentile v x <= 100.
Proof.
  intros Hin Hx. unfold percentile.
  pose proof (count_less_ties v x) as Hle.
  pose proof (ties_count_pos v x Hin Hx) as Hpos.
  assert (Hn : 0 < INR (length v)) by (apply lt_0_INR; lia).
  apply le_INR in Hle. rewrite plus_INR in Hle.
  apply lt_INR in Hpos. change (INR 0) with 0 in Hpos.
  assert (H1 : 1 <= INR (ties_count v x)).
  { change 1 with (INR 1). apply le_INR. apply INR_lt. change (INR 0) with 0. assumption. }
  pose proof (pos_INR (less_count v x)) as Hl.
  set (l := INR (less_count v x)) in *.
  set (t := INR (ties_count v x)) in *.
  set (n := INR (length v)) in *.
  assert (Hk : 0 < / n) by now apply Rinv_0_lt_compat.
  assert (Hkn : / n * n = 1) by (field; lra).
  unfold Rdiv. set (k := / n) in *.
  split; nra.
Qed.

(** ** Constant series *)

Lemma all_equal_repeat (x : float64) (v : list float64) :
  Forall (fun y => y = x) v -> v = repeat x (length v).
Proof.
  induction 1 as [|y v Hy Hv IH]; simpl; [reflexivity|]. now rewrite <- IH, Hy.
Qed.

Lemma filter_notna_repeat (x : float64) (n : nat) :
  notna x = true -> filter notna (repeat x n) = repeat x n.
Proof.
  intros Hx. induction n as [|n IH]; simpl; [reflexivity|]. now rewrite Hx, IH.
Qed.

Lemma less_count_repeat (x : float64) (n : nat) : less_count (repeat x n) x = 0%nat.
Proof.
  unfold less_count, count_if. induction n as [|n IH]; simpl; [reflexivity|].
  now rewrite flt_irrefl.
Qed.

Lemma ties_count_repeat (x : float64) (n : nat) :
  notna x = true -> ties_count (repeat x n) x = n.
Proof.
  intros Hx. unfold ties_count, count_if. induction n as [|n IH]; simpl; [reflexivity|].
  rewrite (feq_refl _ Hx). simpl. now rewrite IH.
Qed.

Lemma fsum_repeat_Fin (a : R) (n : nat) : fsum (repeat (Fin a) n) = Fin (INR n * a).
Proof.
  induction n as [|n IH].
  - simpl. f_equal. lra.
  - change (fadd (Fin a) (fsum (repeat (Fin a) n)) = Fin (INR (S n) * a)).
    rewrite IH, S_INR. cbv beta iota delta [fadd]. f_equal. ring.
Qed.

Lemma fsum_repeat_special (x : float64) (n : nat) :
  isfinite x = false -> fsum (repeat x (S n)) = x.
Proof.
  intros Hx. induction n as [|n IH].
  - destruct x; try discriminate; reflexivity.
  - change (fadd x (fsum (repeat x (S n))) = x). rewrite IH.
    destruct x; try discriminate; reflexivity.
Qed.

(** The standard deviation of a constant series is 0 or NaN: never positive. *)
Lemma std_constant (x : float64) (n : nat) :
  notna x = true -> fgt (std (repeat x n)) (Fin 0) = false.
Proof.
  intros Hx. unfold std. rewrite filter_notna_repeat by assumption.
  rewrite repeat_length.
  destruct (n <=? 1)%nat eqn:En; [reflexivity|].
  apply Nat.leb_gt in En.
  assert (Hn : INR n <> 0) by (apply not_0_INR; lia).
  assert (Hn1 : INR (n - 1) <> 0) by (apply not_0_INR; lia).
  rewrite map_repeat. unfold of_nat.
  destruct x as [a| | |]; try discriminate.
  - rewrite fsum_repeat_Fin, fdiv_fin by assumption.
    replace (INR n * a / INR n) with a by (field; assumption).
    replace (fsq (fsub (Fin a) (Fin a))) with (Fin 0)
      by (unfold fsq, fsub; simpl; f_equal; ring).
    rewrite fsum_repeat_Fin, fdiv_fin by assumption.
    replace (INR n * 0 / INR (n - 1)) with 0 by (field; assumption).
    unfold fsqrt. rewrite Rsign_zero, sqrt_0. apply flt_irrefl.
  - destruct n as [|n]; [lia|].
    rewrite (fsum_repeat_special PInf n) by reflexivity.
    unfold fdiv at 2. rewrite (Rsign_pos _ (INR_S_pos n)).
    change (fsq (fsub PInf PInf)) with NaN.
    rewrite (fsum_repeat_special NaN n) by reflexivity. reflexivity.
  - destruct n as [|n]; [lia|].
    rewrite (fsum_repeat_special NInf n) by reflexivity.
    unfold fdiv at 2. rewrite (Rsign_pos _ (INR_S_pos n)).
    change (fsq (fsub NInf NInf)) with NaN.
    rewrite (fsum_repeat_special NaN n) by reflexivity. reflexivity.
Qed.

Lemma z_column_constant (x : float64) (n i : nat) :
  notna x = true -> (i < n)%nat -> cell (z_column (repeat x n)) i = Fin 0.
Proof.
  intros Hx Hi. unfold z_column. rewrite std_constant by assumption.
  unfold cell. rewrite nth_map_lt with (da := NaN) by (rewrite repeat_length; lia).
  reflexivity.
Qed.

Lemma pr_column_constant (x : float64) (n i : nat) :
  notna x = true -> (i < n)%nat ->
  cell (pr_column (repeat x n)) i = Fin (50 * (INR n + 1) / INR n).
Proof.
  intros Hx Hi.
  rewrite pr_column_cell.
  - rewrite nth_repeat_lt by lia. unfold percentile.
    rewrite less_count_repeat, ties_count_repeat, repeat_length by assumption.
    f_equal. change (INR 0) with 0. field. apply not_0_INR. lia.
  - apply Forall_forall. intros y Hy. apply repeat_spec in Hy. now subst.
  - rewrite repeat_length. lia.
Qed.

Lemma constant_values (x : float64) (df : list observation) :
  Forall (fun r => value r = x) df ->
  map value (sort_values df) = repeat x (length df).
Proof.
  intros H. rewrite <- (values_length df).
  apply all_equal_repeat. apply Forall_map. now apply sort_values_Forall.
Qed.

Lemma replace_inf_Fin (a : R) : replace_inf (Fin a) = Fin a.
Proof. reflexivity. Qed.

Lemma output_rolling_not_inf (df : list observation) (out : list metrics_row) (row : metrics_row) :
  transform_data (Some df) = Some out -> In row out ->
  isinf (rolling_avg_3m row) = false.
Proof.
  intros Ht Hin. apply transform_data_Some_inv in Ht. destruct Ht as [_ ->].
  apply in_map_iff in Hin. destruct Hin as [pre [<- _]].
  simpl. apply replace_inf_not_inf.
Qed.

(** A rolling window made of infinite cells only has no mean. *)
Lemma rolling_mean_single_inf (w : nat) (x : float64) :
  isinf x = true -> cell (rolling_mean (S w) 1 [x]) 0 = NaN.
Proof.
  intros Hx. unfold cell, rolling_mean, window, prep_values. simpl.
  rewrite Hx. reflexivity.
Qed.

(** ** The three-month scenario *)

Lemma three_months_sorted (sid : string) (d0 d1 d2 : Z) :
  (d0 < d1 < d2)%Z -> sort_values (three_months sid d0 d1 d2) = three_months sid d0 d1 d2.
Proof.
  intros Hd. apply sort_values_sorted_id. unfold three_months.
  repeat constructor; simpl; lia.
Qed.

Lemma three_months_rows (sid : string) (d0 d1 d2 : Z) :
  (d0 < d1 < d2)%Z ->
  let v := [Fin 100; Fin 110; Fin 121] in
  transform_data (Some (three_months sid d0 d1 d2)) =
  Some [ replace_inf_row (metrics_at v 0 (mk_observation sid d0 (Fin 100)));
         replace_inf_row (metrics_at v 1 (mk_observation sid d1 (Fin 110)));
         replace_inf_row (metrics_at v 2 (mk_observation sid d2 (Fin 121))) ].
Proof.
  intros Hd v.
  rewrite transform_data_nonempty by discriminate.
  rewrite add_metrics_unfold, three_months_sorted by assumption.
  reflexivity.
Qed.

Lemma pct_cell_fin (a b : R) :
  b <> 0 -> replace_inf (pct_cell (Fin a) (Fin b)) = Fin ((a / b - 1) * 100).
Proof.
  intros Hb. unfold pct_cell. now rewrite fdiv_fin by assumption.
Qed.

Lemma three_months_mom (sid : string) (d0 d1 d2 : Z) :
  (d0 < d1 < d2)%Z ->
  option_map (map mom_change) (transform_data (Some (three_months sid d0 d1 d2))) =
  Some [NaN; Fin 10; Fin 10].
Proof.
  intros Hd. rewrite three_months_rows by assumption.
  cbn [option_map map mom_change replace_inf_row metrics_at]. unfold mom_column.
  rewrite !pct_change_cell by (simpl; lia).
  cbn [nth Nat.ltb Nat.leb Nat.sub].
  rewrite pct_cell_nan_prev, !pct_cell_fin by lra.
  repeat f_equal; lra.
Qed.

Lemma three_months_rolling (sid : string) (d0 d1 d2 : Z) :
  (d0 < d1 < d2)%Z ->
  option_map (map rolling_avg_3m) (transform_data (Some (three_months sid d0 d1 d2))) =
  Some [Fin 100; Fin 105; Fin (331 / 3)].
Proof.
  intros Hd. rewrite three_months_rows by assumption.
  cbn [option_map map rolling_avg_3m replace_inf_row metrics_at].
  change [Fin 100; Fin 110; Fin 121] with (map Fin [100; 110; 121]).
  rewrite !rolling_mean_finite by (simpl; lia).
  rewrite !replace_inf_Fin. unfold window_mean. simpl.
  repeat f_equal; lra.
Qed.

(** ** Facts about the example series *)

Lemma zero_base_clean : Forall (fun r => notna (value r) = true) zero_base_series.
Proof. repeat constructor. Defined.

Lemma two_equal_constant : Forall (fun r => value r = Fin 5) two_equal_values.
Proof. repeat constructor. Defined.

(** ** Ranges *)

Lemma float_range_large : 121 <= float_range.
Proof.
  unfold float_range.
  apply Rle_trans with (2 ^ 7); [simpl; lra|].
  apply Rle_pow; [lra|lia].
Qed.

Lemma square_range_large : 121 <= square_range.
Proof.
  unfold square_range.
  apply Rle_trans with (2 ^ 7); [simpl; lra|].
  apply Rle_pow; [lra|lia].
Qed.

Lemma in_range_finite (bound : R) (df : list observation) :
  Forall (fun r => in_range bound (value r)) df ->
  Forall (fun r => isfinite (value r) = true) df.
Proof.
  intros H. eapply Forall_impl; [|exact H].
  intros r Hr. cbv beta in *. destruct (value r); [reflexivity | contradiction ..].
Qed.

Lemma spring_2024_in_range (bound : R) :
  121 <= bound -> Forall (fun r => in_range bound (value r)) spring_2024.
Proof.
  intros Hb. unfold spring_2024, three_months.
  repeat (constructor; [simpl; rewrite Rabs_pos_eq; lra|]). constructor.
Qed.

Lemma small_integer_IZR (m : Z) : (Z.abs m <= 2 ^ 49)%Z -> small_integer (Fin (IZR m)).
Proof. intros Hm. exists m. split; [reflexivity|assumption]. Qed.

Lemma spring_2024_small_integers : Forall (fun r => small_integer (value r)) spring_2024.
Proof.
  unfold spring_2024, three_months.
  repeat (constructor; [apply small_integer_IZR; simpl; lia|]). constructor.
Qed.

Lemma spring_2024_clean : Forall (fun r => notna (value r) = true) spring_2024.
Proof. repeat constructor. Defined.

(** * Part IV: the properties of [transform_data] *)

(** C1: missing percent changes.  Over NaN-free values, [mom_change] is
    missing at row [i] whenever [i = 0], or the previous value is zero, or the
    value of the row is infinite, and at no other row whose quotient by the
    previous value is in range; [yoy_change] likewise with the lag [L] (12 for
    more than 12 rows, 4 otherwise) in place of 1.  Out of range the quotient
    may overflow in binary64, and the change is then missing as well: nothing
    is said of such a row beyond the first half. *)
Theorem changes_missing_rows (df : list observation) :
  df <> [] ->
  Forall (fun r => notna (value r) = true) df ->
  exists out,
    transform_data (Some df) = Some out /\
    forall i row, nth_error out i = Some row ->
      let v := map value (sort_values df) in
      let L := yoy_lag (length df) in
      (change_undefined 1 v i -> mom_change row = NaN) /\
      (quotient_in_range (nth i v NaN) (nth (i - 1) v NaN) ->
       mom_change row = NaN -> change_undefined 1 v i) /\
      (change_undefined L v i -> yoy_change row = NaN) /\
      (quotient_in_range (nth i v NaN) (nth (i - L) v NaN) ->
       yoy_change row = NaN -> change_undefined L v i).
Proof.
  intros Hne Hclean.
  pose proof (transform_data_nonempty df Hne) as Ht.
  eexists. split; [exact Ht|]. intros i row Hrow v L.
  destruct (transform_data_row _ _ _ _ Ht Hrow) as [r [Hr [Hi ->]]].
  fold v. simpl. unfold mom_column, yoy_column, change_undefined.
  assert (Hv : Forall (fun x => notna x = true) v) by now apply values_notna.
  assert (Hlen : length v = length df) by apply values_length.
  rewrite !pct_column_missing by (auto; lia).
  rewrite Hlen. fold L. tauto.
Qed.

(** C1 at the series [0, 5]. *)
Lemma changes_missing_rows_witness :
  exists out,
    transform_data (Some zero_base_series) = Some out /\
    forall i row, nth_error out i = Some row ->
      let v := map value (sort_values zero_base_series) in
      let L := yoy_lag (length zero_base_series) in
      (change_undefined 1 v i -> mom_change row = NaN) /\
      (quotient_in_range (nth i v NaN) (nth (i - 1) v NaN) ->
       mom_change row = NaN -> change_undefined 1 v i) /\
      (change_undefined L v i -> yoy_change row = NaN) /\
      (quotient_in_range (nth i v NaN) (nth (i - L) v NaN) ->
       yoy_change row = NaN -> change_undefined L v i).
Proof.
  exact (changes_missing_rows zero_base_series ltac:(discriminate) zero_base_clean).
Defined.

(** C1, counterexample: after a zero the next [mom_change] is missing too. *)
Lemma changes_missing_only_at_start_fails :
  ~ changes_missing_only_at_start zero_base_series.
Proof.
  intros Hclaim.
  destruct (transform_data_row_ex zero_base_series 1) as [r [_ Hrow]]; [simpl; lia|].
  destruct (Hclaim _ eq_refl 1%nat _ Hrow) as [Hmom _].
  assert (Hmissing : mom_change
            (replace_inf_row (metrics_at (map value (sort_values zero_base_series)) 1 r)) = NaN).
  { simpl. unfold mom_column. apply pct_column_missing.
    - repeat constructor.
    - simpl. lia.
    - right. left. reflexivity. }
  apply Hmom in Hmissing. discriminate.
Qed.

(** C2: constant series.  When all [n] values equal one non-NaN value [x],
    every [percentile_rank] is [50 * (n + 1) / n], the average rank
    [(n + 1) / 2] over [n] as a percentage, and every [z_score] is 0 provided
    the sum of the values is exact.  (Where the sum rounds, the mean can
    differ from [x] in binary64, the standard deviation is then positive and
    the rows get one common non-zero [z_score].) *)
Theorem constant_series_scores (df : list observation) (x : float64) :
  df <> [] ->
  notna x = true ->
  Forall (fun r => value r = x) df ->
  exists out,
    transform_data (Some df) = Some out /\
    forall i row, nth_error out i = Some row ->
      percentile_rank row = Fin (50 * (INR (length df) + 1) / INR (length df)) /\
      (sum_is_exact x (length df) -> z_score row = Fin 0).
Proof.
  intros Hne Hx Hall.
  pose proof (transform_data_nonempty df Hne) as Ht.
  eexists. split; [exact Ht|]. intros i row Hrow.
  destruct (transform_data_row _ _ _ _ Ht Hrow) as [r [Hr [Hi ->]]].
  simpl. rewrite (constant_values x df Hall).
  rewrite z_column_constant, pr_column_constant by assumption.
  split; [reflexivity | intros _; reflexivity].
Qed.

(** C2 at the series [5, 5], whose sum is exact. *)
Lemma constant_series_scores_witness :
  sum_is_exact (Fin 5) (length two_equal_values) /\
  exists out,
    transform_data (Some two_equal_values) = Some out /\
    forall i row, nth_error out i = Some row ->
      percentile_rank row =
      Fin (50 * (INR (length two_equal_values) + 1) / INR (length two_equal_values)) /\
      (sum_is_exact (Fin 5) (length two_equal_values) -> z_score row = Fin 0).
Proof.
  split.
  - right. exists 5%Z. split; [reflexivity|]. simpl. lia.
  - exact (constant_series_scores two_equal_values (Fin 5)
             ltac:(discriminate) eq_refl two_equal_constant).
Defined.

(** C2, counterexample: two equal values both rank at 75, not 50. *)
Lemma constant_series_claim_fails : ~ constant_series_claim two_equal_values.
Proof.
  intros Hclaim.
  destruct (transform_data_row_ex two_equal_values 0) as [r [_ Hrow]]; [simpl; lia|].
  assert (Heq : forall r r', In r two_equal_values -> In r' two_equal_values ->
                             value r = value r').
  { simpl. intros a b [<-|[<-|[]]] [<-|[<-|[]]]; reflexivity. }
  destruct (Hclaim Heq _ eq_refl 0%nat _ Hrow) as [_ Hpr].
  cbn [percentile_rank replace_inf_row metrics_at] in Hpr.
  rewrite (constant_values (Fin 5) two_equal_values) in Hpr by (repeat constructor).
  rewrite pr_column_constant in Hpr by (simpl; auto; lia).
  rewrite replace_inf_Fin in Hpr. inversion Hpr as [H50].
  simpl in H50. lra.
Qed.

(** C3: row count.  For every observation sequence the transform returns as
    many rows as it was given; the only input without an output frame is the
    empty one. *)
Theorem transform_data_preserves_row_count (df : list observation) :
  match transform_data (Some df) with
  | Some out => length out = length df
  | None => df = []
  end.
Proof.
  destruct df as [|r df]; [reflexivity|].
  rewrite transform_data_nonempty by discriminate.
  now rewrite length_map, add_metrics_length.
Qed.

(** C4: rolling averages.  Over finite values of magnitude at most
    [float_range] (so that no window sum overflows in binary64) both rolling
    averages are defined at every row, row 0 included.  Where moreover the
    values are small integers (so that the window sums are exact),
    [rolling_avg_3m] at row [i] is the mean of the values at rows
    [max 0 (i - 2) .. i] and [rolling_avg_12m] that of rows
    [max 0 (i - 11) .. i]. *)
Theorem rolling_averages_finite (df : list observation) :
  df <> [] ->
  Forall (fun r => in_range float_range (value r)) df ->
  exists out,
    transform_data (Some df) = Some out /\
    forall i row, nth_error out i = Some row ->
      let rs := map (fun r => to_R (value r)) (sort_values df) in
      isfinite (rolling_avg_3m row) = true /\
      isfinite (rolling_avg_12m row) = true /\
      (Forall (fun r => small_integer (value r)) df ->
       rolling_avg_3m row = Fin (window_mean 2 rs i) /\
       rolling_avg_12m row = Fin (window_mean 11 rs i)).
Proof.
  intros Hne Hrange.
  pose proof (in_range_finite _ _ Hrange) as Hfin.
  pose proof (transform_data_nonempty df Hne) as Ht.
  eexists. split; [exact Ht|]. intros i row Hrow rs.
  destruct (transform_data_row _ _ _ _ Ht Hrow) as [r [Hr [Hi ->]]].
  assert (Hv : map value (sort_values df) = map Fin rs).
  { unfold rs. rewrite <- (map_map value to_R). apply finite_values.
    apply Forall_map. now apply sort_values_Forall. }
  assert (Hlen : length rs = length df).
  { unfold rs. now rewrite length_map, sort_values_length. }
  simpl. rewrite Hv.
  rewrite (rolling_mean_finite 3), (rolling_mean_finite 12) by lia.
  repeat split; reflexivity.
Qed.

(** C4 at the series 100, 110, 121 of early 2024. *)
Lemma rolling_averages_finite_witness :
  Forall (fun r => small_integer (value r)) spring_2024 /\
  exists out,
    transform_data (Some spring_2024) = Some out /\
    forall i row, nth_error out i = Some row ->
      let rs := map (fun r => to_R (value r)) (sort_values spring_2024) in
      isfinite (rolling_avg_3m row) = true /\
      isfinite (rolling_avg_12m row) = true /\
      (Forall (fun r => small_integer (value r)) spring_2024 ->
       rolling_avg_3m row = Fin (window_mean 2 rs i) /\
       rolling_avg_12m row = Fin (window_mean 11 rs i)).
Proof.
  split; [exact spring_2024_small_integers|].
  exact (rolling_averages_finite spring_2024 ltac:(discriminate)
           (spring_2024_in_range float_range float_range_large)).
Defined.

(** C4, counterexample: the rolling averages of an infinite observation are
    missing. *)
Lemma rolling_averages_defined_fails : ~ rolling_averages_defined [infinite_observation].
Proof.
  intros Hclaim.
  destruct (transform_data_row_ex [infinite_observation] 0) as [r [_ Hrow]]; [simpl; lia|].
  destruct (Hclaim _ eq_refl 0%nat _ Hrow) as [H3 _].
  apply H3. simpl.
  change (map value (sort_values [infinite_observation])) with [PInf].
  now rewrite rolling_mean_single_inf.
Qed.

(** C5: no infinity in the output.  Row by row, each of the six derived
    cells of the output is the cell computed by [add_metrics] after the
    replacement: NaN where that cell was infinite, the cell itself otherwise,
    and in no case an infinity. *)
Theorem derived_fields_never_infinite (df : list observation) (out : list metrics_row) :
  transform_data (Some df) = Some out ->
  Forall2 (fun before after => Forall2 replaced (derived_fields before) (derived_fields after))
          (add_metrics df) out.
Proof.
  intros Ht. apply transform_data_Some_inv in Ht. destruct Ht as [_ ->].
  induction (add_metrics df) as [|r rows IH]; simpl; constructor; [|exact IH].
  unfold derived_fields. simpl.
  repeat (constructor; [apply replace_inf_replaced|]). constructor.
Qed.

(** C5 at the series [0, 5], whose second [mom_change] is infinite before the
    replacement. *)
Lemma derived_fields_never_infinite_witness :
  transform_data (Some zero_base_series) = Some zero_base_out /\
  Forall2 (fun before after => Forall2 replaced (derived_fields before) (derived_fields after))
          (add_metrics zero_base_series) zero_base_out.
Proof.
  split; [reflexivity|].
  exact (derived_fields_never_infinite zero_base_series zero_base_out eq_refl).
Defined.

(** C6: a single observation.  For one observation with a finite value the
    transform returns one row: both changes missing, both rolling averages
    equal to the value, [z_score] 0 and [percentile_rank] 100. *)
Theorem single_observation_row (o : observation) :
  isfinite (value o) = true -> single_observation_claim o.
Proof.
  destruct o as [sid d x]. simpl. intros Hx.
  destruct x as [a| | |]; try discriminate.
  exists (replace_inf_row (metrics_at [Fin a] 0 (mk_observation sid d (Fin a)))).
  split; [reflexivity|].
  cbn [mom_change yoy_change rolling_avg_3m rolling_avg_12m z_score percentile_rank
       replace_inf_row metrics_at value].
  assert (Hall : Forall (fun y => notna y = true) [Fin a]) by (repeat constructor).
  refine (conj _ (conj _ (conj _ (conj _ (conj _ _))))).
  - unfold mom_column.
    apply pct_column_missing; [assumption | simpl; lia | left; lia].
  - unfold yoy_column.
    apply pct_column_missing; [assumption | simpl; lia | left; unfold yoy_lag; simpl; lia].
  - change [Fin a] with (map Fin [a]).
    rewrite rolling_mean_finite by (simpl; lia).
    rewrite replace_inf_Fin. f_equal. unfold window_mean. simpl. field.
  - change [Fin a] with (map Fin [a]).
    rewrite rolling_mean_finite by (simpl; lia).
    rewrite replace_inf_Fin. f_equal. unfold window_mean. simpl. field.
  - change [Fin a] with (repeat (Fin a) 1).
    now rewrite z_column_constant by (auto; lia).
  - change [Fin a] with (repeat (Fin a) 1).
    rewrite pr_column_constant by (auto; lia).
    rewrite replace_inf_Fin. f_equal. simpl. field.
Qed.

(** C6 at one observation of value 7. *)
Lemma single_observation_row_witness :
  isfinite (value (mk_observation "GDP" 19723 (Fin 7))) = true /\
  single_observation_claim (mk_observation "GDP" 19723 (Fin 7)).
Proof.
  split; [reflexivity|].
  exact (single_observation_row (mk_observation "GDP" 19723 (Fin 7)) eq_refl).
Defined.

(** C6, counterexample: for an infinite observation the rolling averages are
    missing, not equal to the value. *)
Lemma single_observation_claim_fails : ~ single_observation_claim infinite_observation.
Proof.
  intros [row [Ht [_ [_ [H3 _]]]]].
  pose proof (output_rolling_not_inf _ _ row Ht (or_introl eq_refl)) as Hinf.
  rewrite H3 in Hinf. discriminate.
Qed.

(** C7: the three-month scenario.  On the values 100, 110, 121 at three
    increasing dates [mom_change] is [missing, 10, 10] and [rolling_avg_3m] is
    [100, 105, 331/3], whose last entry is the number the specification
    prints to two decimals as 110.33: it lies within half a unit of the second
    decimal of 110.33. *)
Theorem scenario_three_months (sid : string) (d0 d1 d2 : Z) :
  (d0 < d1 < d2)%Z ->
  let out := transform_data (Some (three_months sid d0 d1 d2)) in
  option_map (map mom_change) out = Some [NaN; Fin 10; Fin 10] /\
  option_map (map rolling_avg_3m) out = Some [Fin 100; Fin 105; Fin (331 / 3)] /\
  11033 / 100 - 5 / 1000 <= 331 / 3 < 11033 / 100 + 5 / 1000.
Proof.
  intros Hd out. unfold out.
  rewrite three_months_mom, three_months_rolling by assumption.
  repeat split; lra.
Qed.

(** C7 on the first days of January, February and March 2024. *)
Lemma scenario_three_months_witness :
  (19723 < 19754 < 19783)%Z /\
  option_map (map mom_change) (transform_data (Some spring_2024)) =
  Some [NaN; Fin 10; Fin 10] /\
  option_map (map rolling_avg_3m) (transform_data (Some spring_2024)) =
  Some [Fin 100; Fin 105; Fin (331 / 3)] /\
  11033 / 100 - 5 / 1000 <= 331 / 3 < 11033 / 100 + 5 / 1000.
Proof.
  assert (Hd : (19723 < 19754 < 19783)%Z) by lia.
  split; [exact Hd|].
  exact (scenario_three_months "CPIAUCSL" 19723 19754 19783 Hd).
Defined.

(** C9: the replacement acts on the whole frame.  The date column of the
    output is the date column of the sorted input; the value column is the
    sorted input's after the replacement, hence unchanged when every value is
    finite, and NaN in each row whose raw value is infinite. *)
Theorem replacement_covers_raw_columns (df : list observation) (out : list metrics_row) :
  transform_data (Some df) = Some out ->
  map row_observation_date out = map observation_date (sort_values df) /\
  map row_value out = map (fun r => replace_inf (value r)) (sort_values df) /\
  (Forall (fun r => isfinite (value r) = true) df ->
   map row_value out = map value (sort_values df)) /\
  (forall i r, nth_error (sort_values df) i = Some r -> isinf (value r) = true ->
   exists row, nth_error out i = Some row /\ row_value row = NaN).
Proof.
  intros Ht. apply transform_data_Some_inv in Ht. destruct Ht as [_ ->].
  assert (Hdates : map row_observation_date (map replace_inf_row (add_metrics df)) =
                   map observation_date (sort_values df)).
  { rewrite add_metrics_unfold, !map_map. now apply map_combine_seq. }
  assert (Hvalues : map row_value (map replace_inf_row (add_metrics df)) =
                    map (fun r => replace_inf (value r)) (sort_values df)).
  { rewrite add_metrics_unfold, !map_map. now apply map_combine_seq. }
  repeat split; try assumption.
  - intros Hfin. rewrite Hvalues. apply map_ext_in. intros r Hr.
    apply replace_inf_finite.
    rewrite Forall_forall in Hfin. apply Hfin. now apply sort_values_In.
  - intros i r Hr Hinf.
    exists (replace_inf_row (metrics_at (map value (sort_values df)) i r)). split.
    + now rewrite nth_error_map, add_metrics_nth_error, Hr.
    + simpl. now apply replace_inf_inf.
Qed.

(** C9 at a frame whose only value is infinite. *)
Lemma replacement_covers_raw_columns_witness :
  transform_data (Some [infinite_observation]) = Some infinite_out /\
  map row_observation_date infinite_out =
  map observation_date (sort_values [infinite_observation]) /\
  map row_value infinite_out =
  map (fun r => replace_inf (value r)) (sort_values [infinite_observation]) /\
  (Forall (fun r => isfinite (value r) = true) [infinite_observation] ->
   map row_value infinite_out = map value (sort_values [infinite_observation])) /\
  (forall i r, nth_error (sort_values [infinite_observation]) i = Some r ->
   isinf (value r) = true ->
   exists row, nth_error infinite_out i = Some row /\ row_value row = NaN).
Proof.
  split; [reflexivity|].
  exact (replacement_covers_raw_columns [infinite_observation] infinite_out eq_refl).
Defined.

(** C10: range of the percentile rank.  Over [n] NaN-free values every
    [percentile_rank] is a number between [100 / n] and [100], hence positive;
    the lower bound is met by a value below all the others. *)
Theorem percentile_rank_range (df : list observation) :
  df <> [] ->
  Forall (fun r => notna (value r) = true) df ->
  exists out,
    transform_data (Some df) = Some out /\
    forall i row, nth_error out i = Some row ->
      let v := map value (sort_values df) in
      let n := INR (length df) in
      exists p,
        percentile_rank row = Fin p /\
        0 < p /\ 100 / n <= p <= 100 /\
        (less_count v (nth i v NaN) = 0%nat -> ties_count v (nth i v NaN) = 1%nat ->
         p = 100 / n).
Proof.
  intros Hne Hclean.
  pose proof (transform_data_nonempty df Hne) as Ht.
  eexists. split; [exact Ht|]. intros i row Hrow v n.
  destruct (transform_data_row _ _ _ _ Ht Hrow) as [r [Hr [Hi ->]]].
  assert (Hv : Forall (fun x => notna x = true) v) by now apply values_notna.
  assert (Hlen : length v = length df) by apply values_length.
  exists (percentile v (nth i v NaN)).
  assert (Hn : 0 < n) by (apply lt_0_INR; lia).
  assert (Hb : 100 / n <= percentile v (nth i v NaN) <= 100).
  { unfold n. rewrite <- Hlen. apply percentile_bounds.
    - apply nth_In. lia.
    - apply nth_notna; auto; lia. }
  assert (Hlow : 0 < 100 / n) by (apply Rdiv_lt_0_compat; lra).
  repeat split; try lra.
  - cbn [percentile_rank replace_inf_row metrics_at]. fold v.
    now rewrite pr_column_cell by (auto; lia).
  - intros Hless Hties. unfold percentile. rewrite Hless, Hties, Hlen. fold n.
    simpl. field. lra.
Qed.

(** C10 at the series 100, 110, 121 of early 2024. *)
Lemma percentile_rank_range_witness :
  exists out,
    transform_data (Some spring_2024) = Some out /\
    forall i row, nth_error out i = Some row ->
      exists p,
        percentile_rank row = Fin p /\
        0 < p /\ 100 / INR (length spring_2024) <= p <= 100 /\
        (less_count (map value (sort_values spring_2024))
                    (nth i (map value (sort_values spring_2024)) NaN) = 0%nat ->
         ties_count (map value (sort_values spring_2024))
                    (nth i (map value (sort_values spring_2024)) NaN) = 1%nat ->
         p = 100 / INR (length spring_2024)).
Proof.
  exact (percentile_rank_range spring_2024 ltac:(discriminate) spring_2024_clean).
Defined.

(** * Part V: the properties of the orchestration *)

Section PipelineFacts.

Context {db : Type} `{Collaborators db}.

(** The frame [extract_series] hands to the transform holds no NaN value:
    this is the hypothesis of the statements above that speak of NaN-free
    values. *)
Lemma extract_series_clean (sid start_date : string) (df : list observation)
      (info : series_info) :
  extract_series sid start_date = Some (df, info) ->
  Forall (fun r => notna (value r) = true) df.
Proof.
  unfold extract_series.
  destruct (fred_get_series sid start_date) as [data|e]; [|discriminate].
  destruct (fred_get_series_info sid) as [i|e]; [|discriminate].
  intros Heq. inversion Heq; subst. unfold dropna.
  apply Forall_forall. intros r Hr. apply filter_In in Hr. tauto.
Qed.

(** Every identifier handed to the loop is counted once, as a success or as a
    failure: the loop always runs to its end. *)
Lemma run_series_counts (ids : list string) (s f : nat) (d : db) :
  (fst (fst (run_series ids s f d)) + snd (fst (run_series ids s f d))
   = s + f + length ids)%nat.
Proof.
  revert s f d. induction ids as [|sid rest IH]; intros s f d; simpl; [lia|].
  destruct (process_series sid d) as [[[|]|e] d']; rewrite IH; lia.
Qed.

(** C8: empty input.  [transform_data] answers an absent or an empty frame
    with [None], a value and not an exception.  When the extraction of a
    catalogued series leaves no observation, [process_series] returns [False]
    without raising and without touching the database, and the loop of
    [run_full_pipeline] counts one failure and goes on with the remaining
    series. *)
Theorem empty_input_counted_as_failure
        (sid : string) (info : series_info) (d : db) (rest : list string) (s f : nat) :
  indicator indicators sid <> None ->
  extract_series sid "2000-01-01" = Some ([], info) ->
  transform_data None = None /\
  transform_data (Some []) = None /\
  process_series sid d = (Ok false, d) /\
  run_series (sid :: rest) s f d = run_series rest s (S f) d.
Proof.
  intros Hcat Hextract.
  assert (Hp : process_series sid d = (Ok false, d)).
  { unfold process_series.
    destruct (indicator indicators sid) as [[title category]|]; [|contradiction].
    rewrite Hextract. reflexivity. }
  repeat split; try assumption.
  simpl. now rewrite Hp.
Qed.

End PipelineFacts.

(** C8 for the series GDP in the offline run, followed by INDPRO. *)
Lemma empty_input_counted_as_failure_witness :
  indicator indicators "GDP" <> None /\
  @extract_series _ offline "GDP" "2000-01-01" = Some ([], [("units", "Percent")]%string) /\
  transform_data None = None /\
  transform_data (Some []) = None /\
  @process_series _ offline "GDP" [] = (Ok false, []) /\
  @run_series _ offline ["GDP"; "INDPRO"]%string 0 0 [] =
  @run_series _ offline ["INDPRO"]%string 0 1 [].
Proof.
  assert (Hcat : indicator indicators "GDP" <> None) by (simpl; discriminate).
  split; [exact Hcat|]. split; [reflexivity|].
  exact (@empty_input_counted_as_failure _ offline "GDP" [("units", "Percent")]%string
           [] ["INDPRO"]%string 0%nat 0%nat Hcat eq_refl).
Defined.

(** * Part VI: further properties of the transform *)

(** ** Order of the rows *)

Lemma insert_by_date_perm (r : observation) (rows : list observation) :
  Permutation (r :: rows) (insert_by_date r rows).
Proof.
  induction rows as [|r' rest IH]; simpl; [reflexivity|].
  destruct (observation_date r <=? observation_date r')%Z; [reflexivity|].
  rewrite perm_swap. now apply perm_skip.
Qed.

Lemma sort_values_perm (df : list observation) : Permutation df (sort_values df).
Proof.
  induction df as [|r df IH]; simpl; [constructor|].
  rewrite <- insert_by_date_perm. now apply perm_skip.
Qed.

(** Two date-sorted frames with the same rows and no repeated date are equal. *)
Lemma sorted_by_date_unique (l1 l2 : list observation) :
  sorted_by_date l1 -> sorted_by_date l2 ->
  Permutation l1 l2 ->
  NoDup (map observation_date l1) ->
  l1 = l2.
Proof.
  intros S1. revert l2. induction S1 as [|a l1 Ha S1 IH]; intros l2 S2 Hp Hnd.
  - apply Permutation_nil in Hp. now subst.
  - destruct S2 as [|b l2 Hb S2].
    + symmetry in Hp. apply Permutation_nil in Hp. discriminate.
    + assert (Hab : a = b).
      { assert (Hin_a : In a (b :: l2)) by (eapply Permutation_in; [exact Hp|now left]).
        assert (Hin_b : In b (a :: l1))
          by (eapply Permutation_in; [symmetry; exact Hp|now left]).
        destruct Hin_a as [->|Hin_a]; [reflexivity|].
        destruct Hin_b as [->|Hin_b]; [reflexivity|].
        rewrite Forall_forall in Ha, Hb.
        pose proof (Ha _ Hin_b) as H1. pose proof (Hb _ Hin_a) as H2.
        assert (Hd : observation_date a = observation_date b) by lia.
        simpl in Hnd. inversion Hnd as [|? ? Hnotin _]; subst.
        exfalso. apply Hnotin. rewrite Hd. now apply in_map. }
      subst b. f_equal. apply IH; auto.
      * now apply Permutation_cons_inv in Hp.
      * simpl in Hnd. now inversion Hnd.
Qed.

Lemma sort_values_order_independent (df df' : list observation) :
  Permutation df df' ->
  NoDup (map observation_date df) ->
  sort_values df = sort_values df'.
Proof.
  intros Hp Hnd. apply sorted_by_date_unique; try apply sort_values_sorted.
  - rewrite <- (sort_values_perm df), <- (sort_values_perm df'). exact Hp.
  - eapply Permutation_NoDup; [|exact Hnd].
    apply Permutation_map. apply sort_values_perm.
Qed.

Lemma add_metrics_of_sorted (df df' : list observation) :
  sort_values df = sort_values df' -> add_metrics df = add_metrics df'.
Proof.
  intros H. rewrite !add_metrics_unfold. now rewrite H.
Qed.

Lemma sorted_by_date_ascending (rows : list observation) :
  sorted_by_date rows -> StronglySorted Z.le (map observation_date rows).
Proof.
  induction 1 as [|r rows Hall Hs IH]; simpl; constructor; [assumption|].
  apply Forall_map. exact Hall.
Qed.

Lemma output_keys (df : list observation) :
  map (fun r => (row_series_id r, row_observation_date r))
      (map replace_inf_row (add_metrics df)) =
  map (fun r => (series_id r, observation_date r)) (sort_values df).
Proof.
  rewrite add_metrics_unfold, !map_map. now apply map_combine_seq.
Qed.

(** X1: the output is in ascending date order whatever the order of the input,
    and its (series id, date) pairs are those of the input, each as often. *)
Theorem transform_data_sorts_rows (df : list observation) (out : list metrics_row) :
  transform_data (Some df) = Some out ->
  StronglySorted Z.le (map row_observation_date out) /\
  Permutation (map (fun r => (series_id r, observation_date r)) df)
              (map (fun r => (row_series_id r, row_observation_date r)) out).
Proof.
  intros Ht. apply transform_data_Some_inv in Ht. destruct Ht as [_ ->]. split.
  - replace (map row_observation_date (map replace_inf_row (add_metrics df)))
      with (map observation_date (sort_values df)).
    + apply sorted_by_date_ascending, sort_values_sorted.
    + rewrite add_metrics_unfold, !map_map. symmetry. now apply map_combine_seq.
  - rewrite output_keys. apply Permutation_map, sort_values_perm.
Qed.

(** X2: when no date occurs twice, the result does not depend on the order in
    which the rows are given. *)
Theorem transform_data_order_independent (df df' : list observation) :
  Permutation df df' ->
  NoDup (map observation_date df) ->
  transform_data (Some df) = transform_data (Some df').
Proof.
  intros Hp Hnd.
  destruct df as [|r df].
  - apply Permutation_nil in Hp. now subst.
  - destruct df' as [|r' df'].
    + symmetry in Hp. apply Permutation_nil in Hp. discriminate.
    + rewrite !transform_data_nonempty by discriminate.
      f_equal. f_equal. apply add_metrics_of_sorted.
      now apply sort_values_order_independent.
Qed.

(** ** Values of the percent changes *)

Lemma pct_column_value (p : nat) (v : list float64) (i : nat) (a b : R) :
  (i < length v)%nat -> (p <= i)%nat ->
  nth i v NaN = Fin a -> nth (i - p) v NaN = Fin b -> b <> 0 ->
  replace_inf (cell (mul_scalar (pct_change p v) (Fin 100)) i) = Fin ((a / b - 1) * 100).
Proof.
  intros Hi Hp Ha Hb Hb0. rewrite pct_change_cell by assumption.
  replace (i <? p)%nat with false by (symmetry; apply Nat.ltb_ge; lia).
  now rewrite Ha, Hb, pct_cell_fin.
Qed.

(** X3: where the value [a] of the row and the lagged value [b] are finite,
    [b] is not zero and the quotient [a / b] is in range, the change is
    [(a / b - 1) * 100], the relative change from [b] to [a] in percent:
    lag 1 for [mom_change], lag [L] (12 for more than 12 rows, 4 otherwise)
    for [yoy_change]. *)
Theorem changes_values (df : list observation) :
  df <> [] ->
  exists out,
    transform_data (Some df) = Some out /\
    forall i row a b, nth_error out i = Some row ->
      let v := map value (sort_values df) in
      let L := yoy_lag (length df) in
      nth i v NaN = Fin a -> b <> 0 -> quotient_in_range (Fin a) (Fin b) ->
      ((1 <= i)%nat -> nth (i - 1) v NaN = Fin b ->
       mom_change row = Fin ((a / b - 1) * 100)) /\
      ((L <= i)%nat -> nth (i - L) v NaN = Fin b ->
       yoy_change row = Fin ((a / b - 1) * 100)).
Proof.
  intros Hne. pose proof (transform_data_nonempty df Hne) as Ht.
  eexists. split; [exact Ht|]. intros i row a b Hrow v L Ha Hb0 _.
  destruct (transform_data_row _ _ _ _ Ht Hrow) as [r [Hr [Hi ->]]].
  assert (Hlen : length v = length df) by apply values_length.
  fold v. simpl. unfold mom_column, yoy_column. rewrite Hlen. fold L.
  split; intros Hle Hb; apply pct_column_value; auto; lia.
Qed.

(** X3 at the series 100, 110, 121 of early 2024. *)
Lemma changes_values_witness :
  exists out,
    transform_data (Some spring_2024) = Some out /\
    forall i row a b, nth_error out i = Some row ->
      let v := map value (sort_values spring_2024) in
      let L := yoy_lag (length spring_2024) in
      nth i v NaN = Fin a -> b <> 0 -> quotient_in_range (Fin a) (Fin b) ->
      ((1 <= i)%nat -> nth (i - 1) v NaN = Fin b ->
       mom_change row = Fin ((a / b - 1) * 100)) /\
      ((L <= i)%nat -> nth (i - L) v NaN = Fin b ->
       yoy_change row = Fin ((a / b - 1) * 100)).
Proof.
  exact (changes_values spring_2024 ltac:(discriminate)).
Defined.

(** ** Sums with special values *)

Lemma fsum_cons (x : float64) (xs : list float64) : fsum (x :: xs) = fadd x (fsum xs).
Proof. reflexivity. Qed.

Lemma fsum_Fin_inv (xs : list float64) (s : R) :
  fsum xs = Fin s -> Forall (fun x => isfinite x = true) xs.
Proof.
  revert s. induction xs as [|x xs IH]; intros s Hs; [constructor|].
  rewrite fsum_cons in Hs.
  destruct x as [a| | |], (fsum xs) as [t| | |] eqn:E; simpl in Hs; try discriminate.
  constructor; [reflexivity|]. now apply (IH t).
Qed.

Lemma fsum_PInf_inv (xs : list float64) : fsum xs = PInf -> ~ In NInf xs.
Proof.
  induction xs as [|x xs IH]; intros Hs Hin; [contradiction|].
  rewrite fsum_cons in Hs.
  destruct x as [a| | |], (fsum xs) as [t| | |] eqn:E; simpl in Hs; try discriminate;
    destruct Hin as [Hx|Hin]; try discriminate; try (now apply IH).
  apply fsum_Fin_inv in E. rewrite Forall_forall in E.
  apply E in Hin. discriminate.
Qed.

Lemma fsum_NInf_inv (xs : list float64) : fsum xs = NInf -> ~ In PInf xs.
Proof.
  induction xs as [|x xs IH]; intros Hs Hin; [contradiction|].
  rewrite fsum_cons in Hs.
  destruct x as [a| | |], (fsum xs) as [t| | |] eqn:E; simpl in Hs; try discriminate;
    destruct Hin as [Hx|Hin]; try discriminate; try (now apply IH).
  apply fsum_Fin_inv in E. rewrite Forall_forall in E.
  apply E in Hin. discriminate.
Qed.

Lemma fadd_NaN_r (x : float64) : fadd x NaN = NaN.
Proof. destruct x; reflexivity. Qed.

Lemma fsum_In_NaN (xs : list float64) : In NaN xs -> fsum xs = NaN.
Proof.
  induction xs as [|x xs IH]; intros Hin; [contradiction|].
  rewrite fsum_cons. destruct Hin as [->|Hin]; [reflexivity|].
  rewrite IH by assumption. apply fadd_NaN_r.
Qed.

(** An infinite cell minus the mean of a series that holds it is NaN. *)
Lemma centered_inf_nan (xs : list float64) (x : float64) (n : nat) :
  In x xs -> isinf x = true ->
  fsub (fdiv (fsum xs) (of_nat (S n))) x = NaN.
Proof.
  intros Hin Hx. unfold of_nat.
  destruct (fsum xs) as [s| | |] eqn:E.
  - apply fsum_Fin_inv in E. rewrite Forall_forall in E. apply E in Hin.
    destruct x; discriminate.
  - apply fsum_PInf_inv in E.
    destruct x; try discriminate; [|contradiction].
    unfold fdiv. now rewrite (Rsign_pos _ (INR_S_pos n)).
  - apply fsum_NInf_inv in E.
    destruct x; try discriminate; [contradiction|].
    unfold fdiv. now rewrite (Rsign_pos _ (INR_S_pos n)).
  - reflexivity.
Qed.

(** With an infinite value in a NaN-free series the standard deviation is NaN. *)
Lemma std_with_inf (v : list float64) (x : float64) :
  Forall (fun y => notna y = true) v -> In x v -> isinf x = true ->
  fgt (std v) (Fin 0) = false.
Proof.
  intros Hv Hin Hx. unfold std. rewrite (forall_notna_filter v Hv).
  destruct (length v <=? 1)%nat eqn:En; [reflexivity|].
  apply Nat.leb_gt in En.
  destruct (length v) as [|n] eqn:El; [lia|].
  rewrite fsum_In_NaN; [reflexivity|].
  apply in_map_iff. exists x. split; [|assumption].
  rewrite centered_inf_nan by assumption. reflexivity.
Qed.

Lemma finite_or_inf (v : list float64) :
  Forall (fun y => notna y = true) v ->
  Forall (fun y => isfinite y = true) v \/ exists x, In x v /\ isinf x = true.
Proof.
  induction 1 as [|y v Hy Hv IH]; [left; constructor|].
  destruct IH as [IH|[x [Hin Hx]]].
  - destruct y; try discriminate.
    + left. now constructor.
    + right. exists PInf. split; [now left|reflexivity].
    + right. exists NInf. split; [now left|reflexivity].
  - right. exists x. split; [now right|assumption].
Qed.

(** ** The z-score over finite values *)

(** Mean and sample standard deviation of a list of reals. *)
Definition Rmean (rs : list R) : R := Rsum rs / INR (length rs).

Definition Rstd (rs : list R) : R :=
  sqrt (Rsum (map (fun y => (Rmean rs - y) * (Rmean rs - y)) rs) / INR (length rs - 1)).

Lemma Rsum_cons (r : R) (rs : list R) : Rsum (r :: rs) = r + Rsum rs.
Proof. reflexivity. Qed.

Lemma Rsum_squares_nonneg (m : R) (rs : list R) :
  0 <= Rsum (map (fun y => (m - y) * (m - y)) rs).
Proof.
  induction rs as [|r rs IH]; [simpl; lra|].
  rewrite map_cons, Rsum_cons. cbv beta.
  pose proof (Rle_0_sqr (m - r)) as Hsq. unfold Rsqr in Hsq. lra.
Qed.

Lemma mean_Fin (rs : list R) :
  rs <> [] -> mean (map Fin rs) = Fin (Rmean rs).
Proof.
  intros Hne. unfold mean, Rmean.
  rewrite filter_notna_Fin, length_map, fsum_Fin.
  destruct rs as [|r rs]; [contradiction|].
  unfold of_nat. now rewrite fdiv_fin by (apply not_0_INR; simpl; lia).
Qed.

Lemma std_Fin (rs : list R) :
  (2 <= length rs)%nat -> std (map Fin rs) = Fin (Rstd rs).
Proof.
  intros Hlen. unfold std, Rstd.
  rewrite filter_notna_Fin, length_map, fsum_Fin.
  replace (length rs <=? 1)%nat with false by (symmetry; apply Nat.leb_gt; lia).
  unfold of_nat. rewrite fdiv_fin by (apply not_0_INR; lia).
  fold (Rmean rs). rewrite map_map.
  rewrite (map_ext _ (fun y => Fin ((Rmean rs - y) * (Rmean rs - y))))
    by (intros y; reflexivity).
  rewrite <- (map_map (fun y => (Rmean rs - y) * (Rmean rs - y)) Fin), fsum_Fin.
  assert (Hn1 : 0 < INR (length rs - 1)) by (apply lt_0_INR; lia).
  rewrite fdiv_fin by lra.
  pose proof (Rsum_squares_nonneg (Rmean rs) rs) as Hs.
  set (q := Rsum (map (fun y => (Rmean rs - y) * (Rmean rs - y)) rs) / INR (length rs - 1)).
  assert (Hq : 0 <= q).
  { unfold q, Rdiv. apply Rmult_le_pos; [assumption|]. left. now apply Rinv_0_lt_compat. }
  unfold fsqrt, Rsign. destruct (Rcompare_spec q 0); try reflexivity. lra.
Qed.

Lemma z_column_length (v : list float64) : length (z_column v) = length v.
Proof.
  unfold z_column, div_scalar, sub_scalar.
  destruct (fgt (std v) (Fin 0)); now rewrite ?length_map.
Qed.

Lemma map_cell_combine {A : Type} (g : float64 -> float64) (col : list float64)
      (l : list A) (s : nat) :
  length col = (s + length l)%nat ->
  map (fun ir : nat * A => g (cell col (fst ir))) (combine (seq s (length l)) l) =
  map g (skipn s col).
Proof.
  revert s. induction l as [|a l IH]; intros s Hlen; simpl.
  - rewrite skipn_all2 by (simpl in Hlen; lia). reflexivity.
  - simpl in Hlen. rewrite IH by lia. unfold cell.
    assert (Hs : (s < length col)%nat) by lia.
    clear - Hs. revert s Hs. induction col as [|c col IHc]; intros s Hs; simpl in *; [lia|].
    destruct s as [|s]; [reflexivity|]. simpl. apply IHc. lia.
Qed.

(** The [z_score] column of the output. *)
Lemma output_z_scores (df : list observation) :
  map z_score (map replace_inf_row (add_metrics df)) =
  map replace_inf (z_column (map value (sort_values df))).
Proof.
  rewrite add_metrics_unfold, !map_map.
  cbn [z_score replace_inf_row metrics_at].
  rewrite (map_cell_combine replace_inf); [reflexivity|].
  now rewrite z_column_length, length_map.
Qed.

Lemma z_column_finite (rs : list R) :
  fgt (std (map Fin rs)) (Fin 0) = true ->
  0 < Rstd rs /\
  z_column (map Fin rs) = map (fun x => Fin ((x - Rmean rs) / Rstd rs)) rs.
Proof.
  intros Hgt.
  assert (Hlen : (2 <= length rs)%nat).
  { destruct (le_lt_dec 2 (length rs)) as [H|H]; [assumption|].
    unfold std in Hgt. rewrite filter_notna_Fin, length_map in Hgt.
    replace (length rs <=? 1)%nat with true in Hgt by (symmetry; apply Nat.leb_le; lia).
    discriminate. }
  assert (Hpos : 0 < Rstd rs).
  { rewrite std_Fin in Hgt by assumption. unfold fgt, flt in Hgt.
    destruct (Rcompare_spec 0 (Rstd rs)); try discriminate. assumption. }
  split; [assumption|].
  unfold z_column. rewrite Hgt, std_Fin by assumption.
  rewrite mean_Fin by (destruct rs; [simpl in Hlen; lia|discriminate]).
  unfold div_scalar, sub_scalar. rewrite !map_map.
  apply map_ext. intros x. unfold fsub. simpl fadd.
  rewrite fdiv_fin by lra. reflexivity.
Qed.

Lemma std_positive_finite (v : list float64) :
  Forall (fun y => notna y = true) v ->
  fgt (std v) (Fin 0) = true ->
  Forall (fun y => isfinite y = true) v.
Proof.
  intros Hv Hgt. destruct (finite_or_inf v Hv) as [H|[x [Hin Hx]]]; [assumption|].
  rewrite (std_with_inf v x Hv Hin Hx) in Hgt. discriminate.
Qed.

Lemma finite_sorted_values (df : list observation) :
  Forall (fun r => isfinite (value r) = true) df ->
  map value (sort_values df) = map Fin (map (fun r => to_R (value r)) (sort_values df)).
Proof.
  intros Hfin. rewrite <- (map_map value to_R). apply finite_values.
  apply Forall_map. now apply sort_values_Forall.
Qed.

(** Over NaN-free values every [z_score] of the output is a number. *)
Lemma z_scores_numbers (df : list observation) :
  df <> [] ->
  Forall (fun r => notna (value r) = true) df ->
  exists zs, map z_score (map replace_inf_row (add_metrics df)) = map Fin zs.
Proof.
  intros Hne Hclean.
  pose proof (values_notna df Hclean) as Hv.
  set (v := map value (sort_values df)) in *.
  destruct (fgt (std v) (Fin 0)) eqn:Hgt.
  - pose proof (std_positive_finite v Hv Hgt) as Hfin.
    pose proof (finite_values v Hfin) as Hrs.
    set (rs := map to_R v) in *.
    rewrite Hrs in Hgt. destruct (z_column_finite rs Hgt) as [Hpos Hz].
    exists (map (fun x => (x - Rmean rs) / Rstd rs) rs).
    rewrite output_z_scores. fold v. rewrite Hrs, Hz, !map_map. reflexivity.
  - exists (map (fun _ => 0) v).
    rewrite output_z_scores. fold v. unfold z_column. rewrite Hgt, !map_map.
    reflexivity.
Qed.

(** X5: when every value is infinite or a finite number of magnitude at most
    [square_range] (so that neither the sum of the values nor the sum of the
    squared deviations overflows in binary64), every [z_score] of the output
    is a number: none is missing. *)
Theorem z_scores_defined (df : list observation) :
  df <> [] ->
  Forall (fun r => isinf (value r) = true \/ in_range square_range (value r)) df ->
  exists out,
    transform_data (Some df) = Some out /\
    forall row, In row out -> isfinite (z_score row) = true.
Proof.
  intros Hne Hrange. pose proof (transform_data_nonempty df Hne) as Ht.
  assert (Hclean : Forall (fun r => notna (value r) = true) df).
  { eapply Forall_impl; [|exact Hrange]. intros r Hr. cbv beta in *.
    destruct (value r); [reflexivity .. | destruct Hr as [Hr|Hr]; [discriminate|contradiction]]. }
  destruct (z_scores_numbers df Hne Hclean) as [zs Hzs].
  eexists. split; [exact Ht|]. intros row Hin.
  apply (in_map z_score) in Hin. rewrite Hzs in Hin.
  apply in_map_iff in Hin. destruct Hin as [z [<- _]]. reflexivity.
Qed.

(** X5 at the series 100, 110, 121 of early 2024. *)
Lemma z_scores_defined_witness :
  exists out,
    transform_data (Some spring_2024) = Some out /\
    forall row, In row out -> isfinite (z_score row) = true.
Proof.
  refine (z_scores_defined spring_2024 ltac:(discriminate) _).
  eapply Forall_impl; [|exact (spring_2024_in_range square_range square_range_large)].
  intros r Hr. right. exact Hr.
Defined.

(** X6: one infinite value among NaN-free values makes the standard deviation
    NaN, and every [z_score] of the series is then 0. *)
Theorem infinite_value_flattens_z_scores (df : list observation) :
  Forall (fun r => notna (value r) = true) df ->
  (exists r, In r df /\ isinf (value r) = true) ->
  exists out,
    transform_data (Some df) = Some out /\
    forall row, In row out -> z_score row = Fin 0.
Proof.
  intros Hclean [r [Hr Hinf]].
  assert (Hdf : df <> []) by (destruct df; [contradiction|discriminate]).
  pose proof (transform_data_nonempty df Hdf) as Ht.
  eexists. split; [exact Ht|]. intros row Hin.
  apply (in_map z_score) in Hin. rewrite output_z_scores in Hin.
  assert (Hgt : fgt (std (map value (sort_values df))) (Fin 0) = false).
  { apply (std_with_inf _ (value r)); [now apply values_notna| |assumption].
    apply in_map. now apply sort_values_In. }
  unfold z_column in Hin. rewrite Hgt, map_map in Hin.
  apply in_map_iff in Hin. destruct Hin as [y [Hy _]]. now rewrite <- Hy.
Qed.

Definition one_infinite_value : list observation :=
  [ mk_observation "DGS10" 19723 (Fin 4); mk_observation "DGS10" 19724 PInf;
    mk_observation "DGS10" 19725 (Fin 5) ].

(** X6 at the series [4, inf, 5]. *)
Lemma infinite_value_flattens_z_scores_witness :
  exists out,
    transform_data (Some one_infinite_value) = Some out /\
    forall row, In row out -> z_score row = Fin 0.
Proof.
  refine (infinite_value_flattens_z_scores one_infinite_value _ _).
  - repeat constructor.
  - exists (mk_observation "DGS10" 19724 PInf). split; [right; now left|reflexivity].
Defined.

(** ** Order of the percentile ranks *)

Lemma flt_trans (w x y : float64) :
  flt w x = true -> flt x y = true -> flt w y = true.
Proof.
  destruct w as [a| | |], x as [b| | |], y as [c| | |]; simpl;
    try discriminate; try reflexivity.
  destruct (Rcompare_spec a b); try discriminate.
  destruct (Rcompare_spec b c); try discriminate.
  intros _ _. destruct (Rcompare_spec a c); try reflexivity; lra.
Qed.

Lemma feq_flt (w x y : float64) :
  feq w x = true -> flt x y = true -> flt w y = true.
Proof.
  destruct w as [a| | |], x as [b| | |], y as [c| | |]; simpl;
    try discriminate; try reflexivity.
  destruct (Rcompare_spec a b); try discriminate.
  destruct (Rcompare_spec b c); try discriminate.
  intros _ _. destruct (Rcompare_spec a c); try reflexivity; lra.
Qed.

(** The values below or equal to [x] are all below a larger [y]. *)
Lemma count_below (v : list float64) (x y : float64) :
  flt x y = true ->
  (less_count v x + ties_count v x <= less_count v y)%nat.
Proof.
  intros Hxy. unfold less_count, ties_count, count_if.
  induction v as [|w v IH]; simpl; [lia|].
  destruct (flt w x) eqn:Elt.
  - rewrite (flt_feq_excl _ _ Elt), (flt_trans _ _ _ Elt Hxy). simpl. lia.
  - destruct (feq w x) eqn:Eeq.
    + rewrite (feq_flt _ _ _ Eeq Hxy). simpl. lia.
    + destruct (flt w y); simpl; lia.
Qed.

Lemma flt_notna (x y : float64) : flt x y = true -> notna x = true /\ notna y = true.
Proof. destruct x, y; simpl; try discriminate; auto. Qed.

Lemma percentile_strict (v : list float64) (x y : float64) :
  In x v -> In y v -> flt x y = true -> percentile v x < percentile v y.
Proof.
  intros Hx Hy Hxy. destruct (flt_notna _ _ Hxy) as [Nx Ny].
  pose proof (count_below v x y Hxy) as Hc.
  pose proof (ties_count_pos v x Hx Nx) as Tx.
  pose proof (ties_count_pos v y Hy Ny) as Ty.
  assert (Hn : 0 < INR (length v)) by (apply lt_0_INR; destruct v; [contradiction|simpl; lia]).
  apply le_INR in Hc. rewrite plus_INR in Hc.
  apply lt_INR in Tx. apply lt_INR in Ty. change (INR 0) with 0 in Tx, Ty.
  assert (H1 : 1 <= INR (ties_count v x)).
  { change 1 with (INR 1). apply le_INR. apply INR_lt. now change (INR 0) with 0. }
  unfold percentile.
  set (lx := INR (less_count v x)) in *. set (tx := INR (ties_count v x)) in *.
  set (ly := INR (less_count v y)) in *. set (ty := INR (ties_count v y)) in *.
  assert (Hk : 0 < / INR (length v)) by now apply Rinv_0_lt_compat.
  unfold Rdiv. set (k := / INR (length v)) in *.
  assert (Hlt : lx + (tx + 1) * / 2 < ly + (ty + 1) * / 2) by lra.
  nra.
Qed.

(** X7: over NaN-free values the percentile rank follows the order of the
    values: a row with a smaller value has a smaller rank, and rows with equal
    values have equal ranks. *)
Theorem percentile_rank_monotone (df : list observation) :
  df <> [] ->
  Forall (fun r => notna (value r) = true) df ->
  exists out,
    transform_data (Some df) = Some out /\
    forall i j ri rj, nth_error out i = Some ri -> nth_error out j = Some rj ->
      let v := map value (sort_values df) in
      (flt (nth i v NaN) (nth j v NaN) = true ->
       exists p q, percentile_rank ri = Fin p /\ percentile_rank rj = Fin q /\ p < q) /\
      (nth i v NaN = nth j v NaN -> percentile_rank ri = percentile_rank rj).
Proof.
  intros Hne Hclean. pose proof (transform_data_nonempty df Hne) as Ht.
  eexists. split; [exact Ht|]. intros i j ri rj Hi Hj v.
  destruct (transform_data_row _ _ _ _ Ht Hi) as [oi [_ [Li ->]]].
  destruct (transform_data_row _ _ _ _ Ht Hj) as [oj [_ [Lj ->]]].
  assert (Hv : Forall (fun x => notna x = true) v) by now apply values_notna.
  assert (Hlen : length v = length df) by apply values_length.
  cbn [percentile_rank replace_inf_row metrics_at]. fold v.
  rewrite !pr_column_cell by (auto; lia). rewrite !replace_inf_Fin.
  split.
  - intros Hlt. eexists. eexists. split; [reflexivity|]. split; [reflexivity|].
    apply percentile_strict; auto; apply nth_In; lia.
  - intros Heq. now rewrite Heq.
Qed.

(** X7 at the series 100, 110, 121 of early 2024. *)
Lemma percentile_rank_monotone_witness :
  exists out,
    transform_data (Some spring_2024) = Some out /\
    forall i j ri rj, nth_error out i = Some ri -> nth_error out j = Some rj ->
      (flt (nth i (map value (sort_values spring_2024)) NaN)
           (nth j (map value (sort_values spring_2024)) NaN) = true ->
       exists p q, percentile_rank ri = Fin p /\ percentile_rank rj = Fin q /\ p < q) /\
      (nth i (map value (sort_values spring_2024)) NaN =
       nth j (map value (sort_values spring_2024)) NaN ->
       percentile_rank ri = percentile_rank rj).
Proof.
  exact (percentile_rank_monotone spring_2024 ltac:(discriminate) spring_2024_clean).
Defined.

(** ** Range of the rolling averages *)

Lemma Forall_firstn_skipn {A : Type} (P : A -> Prop) (m n : nat) (l : list A) :
  Forall P l -> Forall P (firstn m (skipn n l)).
Proof.
  intros H. apply Forall_forall. intros x Hx. rewrite Forall_forall in H. apply H.
  rewrite <- (firstn_skipn n l). apply in_or_app. right.
  rewrite <- (firstn_skipn m (skipn n l)). apply in_or_app. now left.
Qed.

Lemma Rsum_bounds (lo hi : R) (rs : list R) :
  Forall (fun y => lo <= y <= hi) rs ->
  INR (length rs) * lo <= Rsum rs <= INR (length rs) * hi.
Proof.
  induction 1 as [|r rs Hr Hrs IH].
  - simpl. lra.
  - rewrite Rsum_cons. change (length (r :: rs)) with (S (length rs)).
    rewrite S_INR. cbv beta in Hr. nra.
Qed.

Lemma window_mean_bounds (lo hi : R) (k : nat) (rs : list R) (i : nat) :
  Forall (fun y => lo <= y <= hi) rs -> (i < length rs)%nat ->
  lo <= window_mean k rs i <= hi.
Proof.
  intros Hall Hi. unfold window_mean.
  set (w := firstn (i + 1 - (i - k)) (skipn (i - k) rs)).
  assert (Hlen : length w = (i + 1 - (i - k))%nat).
  { unfold w. rewrite length_firstn, length_skipn. lia. }
  pose proof (Rsum_bounds lo hi w (Forall_firstn_skipn _ _ _ _ Hall)) as Hb.
  rewrite Hlen in Hb.
  assert (Hn : 0 < INR (i + 1 - (i - k))) by (apply lt_0_INR; lia).
  set (n := INR (i + 1 - (i - k))) in *.
  assert (Hk : 0 < / n) by now apply Rinv_0_lt_compat.
  assert (Hkn : n * / n = 1) by (field; lra).
  assert (H1 : 0 <= (Rsum w - n * lo) * / n) by (apply Rmult_le_pos; lra).
  assert (H2 : 0 <= (n * hi - Rsum w) * / n) by (apply Rmult_le_pos; lra).
  replace ((Rsum w - n * lo) * / n) with (Rsum w * / n - lo * (n * / n)) in H1 by ring.
  replace ((n * hi - Rsum w) * / n) with (hi * (n * / n) - Rsum w * / n) in H2 by ring.
  rewrite Hkn in H1, H2. unfold Rdiv. lra.
Qed.

(** X8: when the values are small integers (so that the window sums are
    exact in binary64) between [lo] and [hi], both rolling averages of every
    row are numbers between [lo] and [hi]. *)
Theorem rolling_averages_within_range (df : list observation) (lo hi : R) :
  df <> [] ->
  Forall (fun r => small_integer (value r)) df ->
  Forall (fun r => exists x, value r = Fin x /\ lo <= x <= hi) df ->
  exists out,
    transform_data (Some df) = Some out /\
    forall row, In row out ->
      exists a b, rolling_avg_3m row = Fin a /\ rolling_avg_12m row = Fin b /\
                  lo <= a <= hi /\ lo <= b <= hi.
Proof.
  intros Hne _ Hall. pose proof (transform_data_nonempty df Hne) as Ht.
  eexists. split; [exact Ht|]. intros row Hin.
  apply In_nth_error in Hin. destruct Hin as [i Hrow].
  destruct (transform_data_row _ _ _ _ Ht Hrow) as [o [_ [Hi ->]]].
  assert (Hfin : Forall (fun r => isfinite (value r) = true) df).
  { eapply Forall_impl; [|exact Hall]. intros r [x [-> _]]. reflexivity. }
  rewrite (finite_sorted_values df Hfin).
  set (rs := map (fun r => to_R (value r)) (sort_values df)).
  assert (Hlen : length rs = length df).
  { unfold rs. now rewrite length_map, sort_values_length. }
  assert (Hrs : Forall (fun y => lo <= y <= hi) rs).
  { unfold rs. apply Forall_map. apply sort_values_Forall.
    eapply Forall_impl; [|exact Hall]. intros r [x [-> Hx]]. exact Hx. }
  cbn [rolling_avg_3m rolling_avg_12m replace_inf_row metrics_at].
  rewrite (rolling_mean_finite 3), (rolling_mean_finite 12) by lia.
  rewrite !replace_inf_Fin.
  eexists. eexists. split; [reflexivity|]. split; [reflexivity|].
  split; apply window_mean_bounds; auto; lia.
Qed.

(** X8 at the series 100, 110, 121 of early 2024, between 100 and 121. *)
Lemma rolling_averages_within_range_witness :
  exists out,
    transform_data (Some spring_2024) = Some out /\
    forall row, In row out ->
      exists a b, rolling_avg_3m row = Fin a /\ rolling_avg_12m row = Fin b /\
                  100 <= a <= 121 /\ 100 <= b <= 121.
Proof.
  refine (rolling_averages_within_range spring_2024 100 121 ltac:(discriminate)
            spring_2024_small_integers _).
  repeat constructor; eexists; (split; [reflexivity|lra]).
Defined.

(** X1 at the series 100, 110, 121 of early 2024 given latest row first. *)
Lemma transform_data_sorts_rows_witness :
  transform_data (Some (rev spring_2024)) =
  Some (map replace_inf_row (add_metrics (rev spring_2024))) /\
  StronglySorted Z.le
    (map row_observation_date (map replace_inf_row (add_metrics (rev spring_2024)))) /\
  Permutation
    (map (fun r => (series_id r, observation_date r)) (rev spring_2024))
    (map (fun r => (row_series_id r, row_observation_date r))
         (map replace_inf_row (add_metrics (rev spring_2024)))).
Proof.
  split; [reflexivity|].
  exact (transform_data_sorts_rows (rev spring_2024) _ eq_refl).
Defined.

Lemma spring_2024_dates : NoDup (map observation_date spring_2024).
Proof.
  repeat constructor; simpl; intuition discriminate.
Defined.

(** X2 at the series 100, 110, 121 of early 2024 and its reversal. *)
Lemma transform_data_order_independent_witness :
  transform_data (Some spring_2024) = transform_data (Some (rev spring_2024)).
Proof.
  exact (transform_data_order_independent spring_2024 (rev spring_2024)
           (Permutation_rev spring_2024) spring_2024_dates).
Defined.

(** * Part VII: further properties of the orchestration *)

Section OrchestrationFacts.

Context {db : Type} `{Collaborators db}.

(** X9: what [extract_series] returns.  When both FRED calls return, the frame
    holds the data points whose value is not NaN, in the order received, each
    under the requested identifier; when one of them raises, the result is
    [None] and nothing is raised. *)
Theorem extract_series_contract (sid start_date : string) :
  match extract_series sid start_date with
  | Some (df, info) =>
      exists data,
        fred_get_series sid start_date = Ok data /\
        fred_get_series_info sid = Ok info /\
        map (fun r => (observation_date r, value r)) df =
        filter (fun dv => notna (snd dv)) data /\
        Forall (fun r => series_id r = sid /\ notna (value r) = true) df
  | None =>
      (exists e, fred_get_series sid start_date = Raise e) \/
      (exists e, fred_get_series_info sid = Raise e)
  end.
Proof.
  unfold extract_series.
  destruct (fred_get_series sid start_date) as [data|e]; [|left; now exists e].
  destruct (fred_get_series_info sid) as [info|e]; [|right; now exists e].
  exists data. split; [reflexivity|]. split; [reflexivity|].
  unfold dropna. split.
  - induction data as [|[d x] data IH]; simpl; [reflexivity|].
    destruct (notna x); simpl; now rewrite IH.
  - apply Forall_forall. intros r Hr. apply filter_In in Hr. destruct Hr as [Hr Hx].
    apply in_map_iff in Hr. destruct Hr as [dv [<- _]]. simpl in *. auto.
Qed.

(** X10: a series counted as a success went through every stage.  When
    [process_series] returns [True], the identifier is in the catalogue, the
    extraction gave a non-empty frame, and the metadata, the observations and
    the metrics of the transformed frame were each loaded, in this order. *)
Theorem process_series_success (sid : string) (d d' : db) :
  process_series sid d = (Ok true, d') ->
  exists title category df info out d1 d2,
    indicator indicators sid = Some (title, category) /\
    extract_series sid "2000-01-01" = Some (df, info) /\
    df <> [] /\
    transform_data (Some df) = Some out /\
    length out = length df /\
    load_metadata sid info category d = (Ok tt, d1) /\
    load_observations out d1 = (Ok tt, d2) /\
    load_metrics out d2 = (Ok tt, d').
Proof.
  unfold process_series. intros Hp.
  destruct (indicator indicators sid) as [[title category]|] eqn:Ecat; [|discriminate].
  destruct (extract_series sid "2000-01-01") as [[df info]|] eqn:Eex; [|discriminate].
  destruct (transform_data (Some df)) as [out|] eqn:Et; [|discriminate].
  destruct (load_metadata sid info category d) as [[[]|e1] d1] eqn:E1; [|discriminate].
  destruct (load_observations out d1) as [[[]|e2] d2] eqn:E2; [|discriminate].
  destruct (load_metrics out d2) as [[[]|e3] d3] eqn:E3; [|discriminate].
  inversion Hp; subst.
  exists title, category, df, info, out, d1, d2.
  destruct (transform_data_Some_inv _ _ Et) as [Hne Hout].
  repeat split; auto.
  rewrite Hout. now rewrite length_map, add_metrics_length.
Qed.

(** X11: a series that cannot be fetched, or whose fetched frame is empty,
    or whose identifier is not in the catalogue, leaves the database as it
    was: [process_series] does not return [True] and loads nothing. *)
Theorem process_series_without_data (sid : string) (d : db) :
  indicator indicators sid = None \/
  extract_series sid "2000-01-01" = None \/
  (exists info, extract_series sid "2000-01-01" = Some ([], info)) ->
  snd (process_series sid d) = d /\
  fst (process_series sid d) <> Ok true /\
  forall rest s f, run_series (sid :: rest) s f d = run_series rest s (S f) d.
Proof.
  intros Hcase.
  assert (Hp : process_series sid d = (Raise (KeyError sid), d) \/
               process_series sid d = (Ok false, d)).
  { unfold process_series.
    destruct (indicator indicators sid) as [[title category]|]; [|now left].
    right. destruct Hcase as [Hc|[Hc|[info Hc]]]; [discriminate| |]; now rewrite Hc. }
  destruct Hp as [Hp|Hp]; rewrite Hp; simpl; rewrite Hp;
    repeat split; try discriminate; reflexivity.
Qed.

(** X12: [run_full_pipeline] handles each of the 13 catalogued series once:
    whatever the collaborators do, the two counts it returns add up to 13. *)
Theorem run_full_pipeline_counts (d : db) :
  (fst (fst (run_full_pipeline d)) + snd (fst (run_full_pipeline d)) = 13)%nat.
Proof.
  unfold run_full_pipeline. now rewrite run_series_counts.
Qed.

End OrchestrationFacts.

(** * Part VIII: the statements on a database

    The three SQL statements of [load_metadata], [load_observations] and
    [load_metrics] are [INSERT ... ON CONFLICT (key) DO UPDATE SET] every other
    column: a row with a new key is added, a row whose key is present replaces
    the stored one.  A table is the list of its rows; the key of
    [series_metadata] is the series identifier, that of [observations] and of
    [calculated_metrics] the pair of identifier and date. *)

Section Upsert.

Variables (K V : Type) (key : V -> K) (keq : K -> K -> bool).
Hypothesis keq_spec : forall a b, keq a b = true <-> a = b.

(** [INSERT ... ON CONFLICT (key) DO UPDATE] of one row. *)
Fixpoint upsert (row : V) (table : list V) : list V :=
  match table with
  | [] => [row]
  | r :: rest => if keq (key r) (key row) then row :: rest else r :: upsert row rest
  end.

(** [SELECT * WHERE key = k]. *)
Fixpoint select (k : K) (table : list V) : option V :=
  match table with
  | [] => None
  | r :: rest => if keq (key r) k then Some r else select k rest
  end.

(** The statements of one load, in row order. *)
Definition upsert_all (rows : list V) (table : list V) : list V :=
  fold_left (fun t r => upsert r t) rows table.

(** The last row of [rows] with key [k]. *)
Definition last_write (k : K) (rows : list V) : option V := select k (rev rows).

Lemma keq_refl (k : K) : keq k k = true.
Proof. now apply keq_spec. Qed.

Lemma keq_neq (a b : K) : a <> b -> keq a b = false.
Proof.
  intros Hne. destruct (keq a b) eqn:E; [|reflexivity].
  apply keq_spec in E. contradiction.
Qed.

Lemma select_upsert_same (row : V) (table : list V) :
  select (key row) (upsert row table) = Some row.
Proof.
  induction table as [|r rest IH]; simpl.
  - now rewrite keq_refl.
  - destruct (keq (key r) (key row)) eqn:E; simpl.
    + now rewrite keq_refl.
    + now rewrite E.
Qed.

Lemma select_upsert_other (k : K) (row : V) (table : list V) :
  k <> key row -> select k (upsert row table) = select k table.
Proof.
  intros Hne. induction table as [|r rest IH]; simpl.
  - rewrite keq_neq by congruence. reflexivity.
  - destruct (keq (key r) (key row)) eqn:E; simpl.
    + apply keq_spec in E. rewrite E. rewrite keq_neq by congruence. reflexivity.
    + destruct (keq (key r) k); [reflexivity|assumption].
Qed.

Lemma select_upsert (k : K) (row : V) (table : list V) :
  select k (upsert row table) = if keq (key row) k then Some row else select k table.
Proof.
  destruct (keq (key row) k) eqn:E.
  - apply keq_spec in E. subst k. apply select_upsert_same.
  - apply select_upsert_other. intros ->. now rewrite keq_refl in E.
Qed.

Lemma select_app (k : K) (t1 t2 : list V) :
  select k (t1 ++ t2) = match select k t1 with Some r => Some r | None => select k t2 end.
Proof.
  induction t1 as [|r t1 IH]; simpl; [reflexivity|].
  destruct (keq (key r) k); [reflexivity|assumption].
Qed.

Lemma select_key (k : K) (table : list V) (r : V) :
  select k table = Some r -> key r = k /\ In r table.
Proof.
  induction table as [|w rest IH]; simpl; [discriminate|].
  destruct (keq (key w) k) eqn:E.
  - intros Hs. inversion Hs; subst. apply keq_spec in E. auto.
  - intros Hs. destruct (IH Hs). auto.
Qed.

Lemma select_None (k : K) (table : list V) :
  select k table = None <-> ~ In k (map key table).
Proof.
  induction table as [|w rest IH]; simpl; [tauto|].
  destruct (keq (key w) k) eqn:E.
  - apply keq_spec in E. split; [discriminate|]. intros Hn. exfalso. auto.
  - rewrite IH. split; [|tauto]. intros Hn [Hk|Hk]; [|tauto].
    subst k. now rewrite keq_refl in E.
Qed.

(** After a load every key selects the last row written under it, or what it
    selected before when the load wrote none. *)
Lemma select_upsert_all (k : K) (rows table : list V) :
  select k (upsert_all rows table) =
  match last_write k rows with
  | Some r => Some r
  | None => select k table
  end.
Proof.
  unfold upsert_all, last_write. revert table.
  induction rows as [|r rows IH]; intros table; simpl; [reflexivity|].
  rewrite IH, select_app, select_upsert. simpl.
  destruct (select k (rev rows)); [reflexivity|].
  destruct (keq (key r) k); reflexivity.
Qed.

Lemma keys_upsert_present (row : V) (table : list V) :
  In (key row) (map key table) -> map key (upsert row table) = map key table.
Proof.
  induction table as [|r rest IH]; simpl; [contradiction|].
  destruct (keq (key r) (key row)) eqn:E; simpl.
  - apply keq_spec in E. now rewrite E.
  - intros [Hk|Hk]; [rewrite Hk, keq_refl in E; discriminate|].
    now rewrite IH.
Qed.

Lemma keys_upsert_absent (row : V) (table : list V) :
  ~ In (key row) (map key table) ->
  map key (upsert row table) = map key table ++ [key row].
Proof.
  induction table as [|r rest IH]; simpl; [reflexivity|].
  intros Hn. destruct (keq (key r) (key row)) eqn:E; simpl.
  - apply keq_spec in E. exfalso. auto.
  - now rewrite IH by tauto.
Qed.

Lemma key_dec (a b : K) : a = b \/ a <> b.
Proof.
  destruct (keq a b) eqn:E.
  - left. now apply keq_spec.
  - right. intros ->. now rewrite keq_refl in E.
Qed.

Lemma In_key_dec (k : K) (l : list K) : In k l \/ ~ In k l.
Proof.
  induction l as [|a l IH]; simpl; [tauto|].
  destruct (key_dec a k); tauto.
Qed.

Lemma keys_upsert_incl (row : V) (table : list V) (k : K) :
  In k (map key (upsert row table)) <-> k = key row \/ In k (map key table).
Proof.
  destruct (In_key_dec (key row) (map key table)) as [Hin|Hn].
  - rewrite keys_upsert_present by assumption. split; [tauto|].
    intros [->|Hk]; assumption.
  - rewrite keys_upsert_absent by assumption. rewrite in_app_iff. simpl.
    split; intros Hk; intuition congruence.
Qed.

(** The uniqueness of the keys is kept by every statement. *)
Lemma NoDup_upsert (row : V) (table : list V) :
  NoDup (map key table) -> NoDup (map key (upsert row table)).
Proof.
  intros Hnd. destruct (In_key_dec (key row) (map key table)) as [Hin|Hn].
  - now rewrite keys_upsert_present.
  - rewrite keys_upsert_absent by assumption.
    apply NoDup_app; [assumption|repeat constructor; auto|].
    intros k Hk [<-|[]]. contradiction.
Qed.

Lemma NoDup_upsert_all (rows table : list V) :
  NoDup (map key table) -> NoDup (map key (upsert_all rows table)).
Proof.
  unfold upsert_all. revert table.
  induction rows as [|r rows IH]; intros table Hnd; simpl; [assumption|].
  apply IH. now apply NoDup_upsert.
Qed.

Lemma keys_upsert_all_present (rows table : list V) :
  (forall r, In r rows -> In (key r) (map key table)) ->
  map key (upsert_all rows table) = map key table.
Proof.
  unfold upsert_all. revert table.
  induction rows as [|r rows IH]; intros table Hin; simpl; [reflexivity|].
  rewrite IH.
  - apply keys_upsert_present. apply Hin. now left.
  - intros w Hw. apply keys_upsert_incl. right. apply Hin. now right.
Qed.

Lemma keys_upsert_all_kept (rows table : list V) (k : K) :
  In k (map key table) -> In k (map key (upsert_all rows table)).
Proof.
  unfold upsert_all. revert table.
  induction rows as [|w rows IH]; intros table Hin; simpl; [assumption|].
  apply IH. apply keys_upsert_incl. now right.
Qed.

Lemma keys_upsert_all_written (rows table : list V) (r : V) :
  In r rows -> In (key r) (map key (upsert_all rows table)).
Proof.
  revert table.
  induction rows as [|w rows IH]; intros table Hin; [contradiction|].
  change (upsert_all (w :: rows) table) with (upsert_all rows (upsert w table)).
  destruct Hin as [->|Hin]; [|now apply IH].
  apply keys_upsert_all_kept. apply keys_upsert_incl. now left.
Qed.

(** Two tables with the same keys in the same order, none repeated, and the
    same row under each key are equal. *)
Lemma table_ext (t t' : list V) :
  NoDup (map key t) -> map key t = map key t' ->
  (forall k, select k t = select k t') -> t = t'.
Proof.
  revert t'. induction t as [|r t IH]; intros [|r' t'] Hnd Hk Hs; simpl in *;
    try discriminate; [reflexivity|].
  inversion Hk as [[Hk1 Hk2]]. inversion Hnd as [|? ? Hnotin Hnd']; subst.
  pose proof (Hs (key r)) as H0. rewrite keq_refl, <- Hk1, keq_refl in H0.
  inversion H0; subst r'. f_equal. apply IH; auto.
  intros k. specialize (Hs k).
  destruct (keq (key r) k) eqn:E; [|assumption].
  apply keq_spec in E. subst k.
  assert (H1 : select (key r) t = None) by now apply select_None.
  assert (H2 : select (key r) t' = None) by (apply select_None; now rewrite <- Hk2).
  now rewrite H1, H2.
Qed.

(** Loading the same rows a second time changes nothing. *)
Lemma upsert_all_idempotent (rows table : list V) :
  NoDup (map key table) ->
  upsert_all rows (upsert_all rows table) = upsert_all rows table.
Proof.
  intros Hnd. apply table_ext.
  - now apply NoDup_upsert_all, NoDup_upsert_all.
  - apply keys_upsert_all_present. intros r Hr. now apply keys_upsert_all_written.
  - intros k. rewrite !select_upsert_all.
    destruct (last_write k rows); reflexivity.
Qed.

End Upsert.

Arguments upsert {K V} key keq row table.
Arguments select {K V} key keq k table.
Arguments upsert_all {K V} key keq rows table.
Arguments last_write {K V} key keq k rows.

(** A row of [series_metadata], without its [last_updated] timestamp: two
    loads of the same metadata give the same row here, while in the database
    they differ in that column. *)
Record metadata_row : Type := mk_metadata_row {
  md_series_id : string;
  md_title : string;
  md_frequency : string;
  md_units : string;
  md_seasonal_adjustment : string;
  md_category : string
}.

(** The three tables the pipeline writes. *)
Record database : Type := mk_database {
  series_metadata : list metadata_row;
  observations : list observation;
  calculated_metrics : list metrics_row
}.

Definition dated_key : Type := (string * Z)%type.

Definition dated_key_eqb (a b : dated_key) : bool :=
  String.eqb (fst a) (fst b) && Z.eqb (snd a) (snd b).

Definition observation_key (r : observation) : dated_key :=
  (series_id r, observation_date r).

Definition metrics_key (r : metrics_row) : dated_key :=
  (row_series_id r, row_observation_date r).

(** The row [load_observations] sends for a row of the transformed frame. *)
Definition observation_of (r : metrics_row) : observation :=
  mk_observation (row_series_id r) (row_observation_date r) (row_value r).

(** What a statement does to the tables. *)
Definition apply_statement (s : statement) (d : database) : database :=
  match s with
  | UpsertMetadata sid title frequency units seasonal_adj category =>
      mk_database
        (upsert md_series_id String.eqb
           (mk_metadata_row sid title frequency units seasonal_adj category)
           (series_metadata d))
        (observations d) (calculated_metrics d)
  | UpsertObservation sid date x =>
      mk_database (series_metadata d)
        (upsert observation_key dated_key_eqb (mk_observation sid date x) (observations d))
        (calculated_metrics d)
  | UpsertMetrics row =>
      mk_database (series_metadata d) (observations d)
        (upsert metrics_key dated_key_eqb row (calculated_metrics d))
  end.

(** Collaborators for a run against such a database: the engine accepts every
    statement; the two FRED calls are left open. *)
Definition on_database
           (get_series : string -> string -> result (list (Z * float64)))
           (get_series_info : string -> result series_info)
  : Collaborators database :=
  {| fred_get_series := get_series;
     fred_get_series_info := get_series_info;
     execute := fun s d => Ok (apply_statement s d) |}.

(** No key occurs twice in a table. *)
Definition unique_keys (d : database) : Prop :=
  NoDup (map md_series_id (series_metadata d)) /\
  NoDup (map observation_key (observations d)) /\
  NoDup (map metrics_key (calculated_metrics d)).

Lemma dated_key_eqb_spec (a b : dated_key) : dated_key_eqb a b = true <-> a = b.
Proof.
  destruct a as [s z], b as [s' z']. unfold dated_key_eqb. simpl.
  rewrite andb_true_iff, String.eqb_eq, Z.eqb_eq. split.
  - intros [-> ->]. reflexivity.
  - intros Heq. inversion Heq. auto.
Qed.

Lemma string_eqb_spec (a b : string) : String.eqb a b = true <-> a = b.
Proof. apply String.eqb_eq. Qed.

Lemma last_write_unique {K V : Type} (key : V -> K) (keq : K -> K -> bool)
      (keq_spec : forall a b, keq a b = true <-> a = b) (rows : list V) (r : V) :
  NoDup (map key rows) -> In r rows -> last_write key keq (key r) rows = Some r.
Proof.
  intros Hnd Hin. unfold last_write.
  destruct (select key keq (key r) (rev rows)) as [w|] eqn:E.
  - apply (select_key _ _ key keq keq_spec) in E. destruct E as [Hk Hw].
    apply in_rev in Hw. f_equal.
    clear - Hnd Hin Hw Hk. induction rows as [|x rows IH]; [contradiction|].
    simpl in Hnd. inversion Hnd as [|? ? Hnotin Hnd']; subst.
    destruct Hin as [->|Hin], Hw as [->|Hw]; auto.
    + exfalso. apply Hnotin. rewrite <- Hk. now apply in_map.
    + exfalso. apply Hnotin. rewrite Hk. now apply in_map.
  - apply (select_None _ _ key keq keq_spec) in E. exfalso. apply E.
    apply in_map. now apply in_rev in Hin.
Qed.

Section OnDatabase.

Variable get_series : string -> string -> result (list (Z * float64)).
Variable get_series_info : string -> result series_info.

#[local] Instance database_run : Collaborators database :=
  on_database get_series get_series_info.

Lemma execute_all_applies (stmts : list statement) (d : database) :
  execute_all stmts d = Ok (fold_left (fun d s => apply_statement s d) stmts d).
Proof.
  revert d. induction stmts as [|s stmts IH]; intros d; simpl; [reflexivity|].
  apply IH.
Qed.

Lemma transaction_applies (stmts : list statement) (d : database) :
  transaction stmts d = (Ok tt, fold_left (fun d s => apply_statement s d) stmts d).
Proof.
  unfold transaction. now rewrite execute_all_applies.
Qed.

Lemma load_metrics_eq (rows : list metrics_row) (d : database) :
  load_metrics rows d =
  (Ok tt, mk_database (series_metadata d) (observations d)
            (upsert_all metrics_key dated_key_eqb rows (calculated_metrics d))).
Proof.
  unfold load_metrics. rewrite transaction_applies. f_equal.
  revert d. induction rows as [|r rows IH]; intros d; simpl.
  - now destruct d.
  - now rewrite IH.
Qed.

Lemma load_observations_eq (rows : list metrics_row) (d : database) :
  load_observations rows d =
  (Ok tt, mk_database (series_metadata d)
            (upsert_all observation_key dated_key_eqb (map observation_of rows)
               (observations d))
            (calculated_metrics d)).
Proof.
  unfold load_observations. rewrite transaction_applies. f_equal.
  revert d. induction rows as [|r rows IH]; intros d; simpl.
  - now destruct d.
  - now rewrite IH.
Qed.

(** The metadata row written for a series. *)
Definition metadata_of (sid title category : string) (info : series_info) : metadata_row :=
  mk_metadata_row sid title
    (info_get info "frequency_short" "M")
    (info_get info "units" EmptyString)
    (info_get info "seasonal_adjustment_short" EmptyString)
    category.

Lemma load_metadata_eq (sid title cat category : string) (info : series_info) (d : database) :
  indicator indicators sid = Some (title, cat) ->
  load_metadata sid info category d =
  (Ok tt, mk_database
            (upsert md_series_id String.eqb (metadata_of sid title category info)
               (series_metadata d))
            (observations d) (calculated_metrics d)).
Proof.
  intros Hcat. unfold load_metadata. rewrite Hcat, transaction_applies. reflexivity.
Qed.

Lemma last_write_observations (k : dated_key) (rows : list metrics_row) :
  last_write observation_key dated_key_eqb k (map observation_of rows) =
  option_map observation_of (last_write metrics_key dated_key_eqb k rows).
Proof.
  unfold last_write. rewrite <- map_rev.
  induction (rev rows) as [|r l IH]; simpl; [reflexivity|].
  change (observation_key (observation_of r)) with (metrics_key r).
  destruct (dated_key_eqb (metrics_key r) k); [reflexivity|assumption].
Qed.

Lemma stored_metrics (rows table : list metrics_row) (r : metrics_row) :
  NoDup (map metrics_key rows) -> In r rows ->
  select metrics_key dated_key_eqb (metrics_key r)
    (upsert_all metrics_key dated_key_eqb rows table) = Some r.
Proof.
  intros Hnd Hr. rewrite select_upsert_all by apply dated_key_eqb_spec.
  now rewrite (last_write_unique _ _ dated_key_eqb_spec rows r Hnd Hr).
Qed.

Lemma stored_observations (rows : list metrics_row) (table : list observation)
      (r : metrics_row) :
  NoDup (map metrics_key rows) -> In r rows ->
  select observation_key dated_key_eqb (metrics_key r)
    (upsert_all observation_key dated_key_eqb (map observation_of rows) table) =
  Some (observation_of r).
Proof.
  intros Hnd Hr. rewrite select_upsert_all by apply dated_key_eqb_spec.
  rewrite last_write_observations.
  now rewrite (last_write_unique _ _ dated_key_eqb_spec rows r Hnd Hr).
Qed.

(** X13: [load_metrics] on the tables.  It returns without raising and
    touches [calculated_metrics] only; afterwards each key holds the last row
    the frame has for it, or what it held before when the frame has none; when
    the keys of the frame are distinct, every row of the frame is stored under
    its key. *)
Theorem load_metrics_stores (rows : list metrics_row) (d : database) :
  exists d',
    load_metrics rows d = (Ok tt, d') /\
    series_metadata d' = series_metadata d /\
    observations d' = observations d /\
    (forall k, select metrics_key dated_key_eqb k (calculated_metrics d') =
               match last_write metrics_key dated_key_eqb k rows with
               | Some r => Some r
               | None => select metrics_key dated_key_eqb k (calculated_metrics d)
               end) /\
    (NoDup (map metrics_key rows) ->
     forall r, In r rows ->
       select metrics_key dated_key_eqb (metrics_key r) (calculated_metrics d') = Some r).
Proof.
  eexists. split; [apply load_metrics_eq|]. simpl.
  assert (Hsel : forall k,
             select metrics_key dated_key_eqb k
               (upsert_all metrics_key dated_key_eqb rows (calculated_metrics d)) =
             match last_write metrics_key dated_key_eqb k rows with
             | Some r => Some r
             | None => select metrics_key dated_key_eqb k (calculated_metrics d)
             end).
  { intros k. apply select_upsert_all. apply dated_key_eqb_spec. }
  repeat split; try assumption.
  intros Hnd r Hr. rewrite Hsel.
  now rewrite (last_write_unique _ _ dated_key_eqb_spec rows r Hnd Hr).
Qed.

(** X14: [load_observations] on the tables.  It returns without raising and
    touches [observations] only; it stores, under the identifier and date of
    each row of the transformed frame, that row's value as the frame has it,
    that is after the replacement of the infinities. *)
Theorem load_observations_stores (rows : list metrics_row) (d : database) :
  exists d',
    load_observations rows d = (Ok tt, d') /\
    series_metadata d' = series_metadata d /\
    calculated_metrics d' = calculated_metrics d /\
    (forall k, select observation_key dated_key_eqb k (observations d') =
               match last_write metrics_key dated_key_eqb k rows with
               | Some r => Some (observation_of r)
               | None => select observation_key dated_key_eqb k (observations d)
               end) /\
    (NoDup (map metrics_key rows) ->
     forall r, In r rows ->
       select observation_key dated_key_eqb (metrics_key r) (observations d') =
       Some (observation_of r)).
Proof.
  eexists. split; [apply load_observations_eq|]. simpl.
  assert (Hsel : forall k,
             select observation_key dated_key_eqb k
               (upsert_all observation_key dated_key_eqb (map observation_of rows)
                  (observations d)) =
             match last_write metrics_key dated_key_eqb k rows with
             | Some r => Some (observation_of r)
             | None => select observation_key dated_key_eqb k (observations d)
             end).
  { intros k. rewrite select_upsert_all by apply dated_key_eqb_spec.
    rewrite last_write_observations.
    destruct (last_write metrics_key dated_key_eqb k rows); reflexivity. }
  repeat split; try assumption.
  intros Hnd r Hr. rewrite Hsel.
  now rewrite (last_write_unique _ _ dated_key_eqb_spec rows r Hnd Hr).
Qed.

(** The database after the three loads of a series. *)
Definition loaded (sid title category : string) (info : series_info)
           (out : list metrics_row) (d : database) : database :=
  mk_database
    (upsert md_series_id String.eqb (metadata_of sid title category info)
       (series_metadata d))
    (upsert_all observation_key dated_key_eqb (map observation_of out) (observations d))
    (upsert_all metrics_key dated_key_eqb out (calculated_metrics d)).

Lemma process_series_cases (sid : string) (d : database) :
  match indicator indicators sid with
  | None => process_series sid d = (Raise (KeyError sid), d)
  | Some (title, category) =>
      match extract_series sid "2000-01-01" with
      | None => process_series sid d = (Ok false, d)
      | Some (df, info) =>
          match transform_data (Some df) with
          | None => process_series sid d = (Ok false, d)
          | Some out =>
              process_series sid d = (Ok true, loaded sid title category info out d)
          end
      end
  end.
Proof.
  unfold process_series.
  destruct (indicator indicators sid) as [[title category]|] eqn:Ecat; [|reflexivity].
  destruct (extract_series sid "2000-01-01") as [[df info]|]; [|reflexivity].
  destruct (transform_data (Some df)) as [out|]; [|reflexivity].
  rewrite (load_metadata_eq sid title category category info d Ecat).
  rewrite load_observations_eq, load_metrics_eq. reflexivity.
Qed.

Lemma loaded_unique_keys (sid title category : string) (info : series_info)
      (out : list metrics_row) (d : database) :
  unique_keys d -> unique_keys (loaded sid title category info out d).
Proof.
  intros [H1 [H2 H3]]. unfold unique_keys, loaded. simpl. repeat split.
  - apply NoDup_upsert; [apply string_eqb_spec|assumption].
  - apply NoDup_upsert_all; [apply dated_key_eqb_spec|assumption].
  - apply NoDup_upsert_all; [apply dated_key_eqb_spec|assumption].
Qed.

Lemma process_series_unique_keys (sid : string) (d : database) :
  unique_keys d -> unique_keys (snd (process_series sid d)).
Proof.
  intros Hd. pose proof (process_series_cases sid d) as Hc.
  destruct (indicator indicators sid) as [[title category]|]; [|now rewrite Hc].
  destruct (extract_series sid "2000-01-01") as [[df info]|]; [|now rewrite Hc].
  destruct (transform_data (Some df)) as [out|]; rewrite Hc; simpl; [|assumption].
  now apply loaded_unique_keys.
Qed.

Lemma run_series_unique_keys (ids : list string) (s f : nat) (d : database) :
  unique_keys d -> unique_keys (snd (run_series ids s f d)).
Proof.
  revert s f d. induction ids as [|sid rest IH]; intros s f d Hd; simpl; [assumption|].
  pose proof (process_series_unique_keys sid d Hd) as Hp.
  destruct (process_series sid d) as [[[|]|e] d']; simpl in Hp; now apply IH.
Qed.

(** X15: loading the frame twice is loading it once.  On tables without
    repeated keys, a second [load_observations] or [load_metrics] of the same
    frame returns the database the first one left. *)
Theorem frame_loads_idempotent (rows : list metrics_row) (d : database) :
  unique_keys d ->
  load_observations rows (snd (load_observations rows d)) =
  (Ok tt, snd (load_observations rows d)) /\
  load_metrics rows (snd (load_metrics rows d)) = (Ok tt, snd (load_metrics rows d)).
Proof.
  intros [_ [H2 H3]]. split.
  - rewrite !load_observations_eq. simpl.
    now rewrite (upsert_all_idempotent _ _ _ _ dated_key_eqb_spec).
  - rewrite !load_metrics_eq. simpl.
    now rewrite (upsert_all_idempotent _ _ _ _ dated_key_eqb_spec).
Qed.

(** X16: a full run keeps the keys unique.  If no table holds a key twice
    before [run_full_pipeline], none does afterwards. *)
Theorem run_full_pipeline_keeps_unique_keys (d : database) :
  unique_keys d -> unique_keys (snd (run_full_pipeline d)).
Proof.
  apply run_series_unique_keys.
Qed.

Lemma extracted_keys (sid start_date : string) (data : list (Z * float64))
      (df : list observation) (info : series_info) (out : list metrics_row) :
  get_series sid start_date = Ok data ->
  extract_series sid start_date = Some (df, info) ->
  transform_data (Some df) = Some out ->
  NoDup (map fst data) ->
  NoDup (map metrics_key out).
Proof.
  intros Hdata Hex Ht Hnd.
  unfold extract_series in Hex. simpl in Hex. rewrite Hdata in Hex.
  destruct (get_series_info sid) as [i|e]; [|discriminate].
  inversion Hex; subst df info. clear Hex.
  apply transform_data_Some_inv in Ht. destruct Ht as [_ ->].
  unfold metrics_key.
  rewrite output_keys.
  eapply Permutation_NoDup; [apply Permutation_map, sort_values_perm|].
  unfold dropna. clear - Hnd.
  induction data as [|[dt x] data IH]; simpl; [constructor|].
  simpl in Hnd. inversion Hnd as [|? ? Hnotin Hnd']; subst.
  destruct (notna x); simpl; [|now apply IH].
  constructor; [|now apply IH].
  intros Hin. apply Hnotin. apply in_map_iff in Hin.
  destruct Hin as [r [Hk Hr]]. apply filter_In in Hr. destruct Hr as [Hr _].
  apply in_map_iff in Hr. destruct Hr as [[dt' x'] [<- Hin']]. simpl in Hk.
  inversion Hk; subst. now apply (in_map fst) in Hin'.
Qed.

(** X17: from FRED to the tables.  For a catalogued series whose data hold a
    value that is not NaN, [process_series] returns [True]; the series has its
    metadata row under the catalogue's title and category; and, when no date
    occurs twice in the data, every row of the transformed frame is stored in
    [calculated_metrics] under its identifier and date, and its value in
    [observations]. *)
Theorem process_series_stores (sid title category : string)
        (data : list (Z * float64)) (info : series_info) (d : database) :
  indicator indicators sid = Some (title, category) ->
  get_series sid "2000-01-01" = Ok data ->
  get_series_info sid = Ok info ->
  (exists dv, In dv data /\ notna (snd dv) = true) ->
  exists df out d',
    extract_series sid "2000-01-01" = Some (df, info) /\
    transform_data (Some df) = Some out /\
    process_series sid d = (Ok true, d') /\
    select md_series_id String.eqb sid (series_metadata d') =
    Some (metadata_of sid title category info) /\
    (NoDup (map fst data) ->
     forall row, In row out ->
       select metrics_key dated_key_eqb (metrics_key row) (calculated_metrics d') = Some row /\
       select observation_key dated_key_eqb (metrics_key row) (observations d') =
       Some (observation_of row)).
Proof.
  intros Hcat Hdata Hinfo [dv [Hdv Hx]].
  set (df := dropna (map (fun dv : Z * float64 => mk_observation sid (fst dv) (snd dv)) data)).
  assert (Hex : extract_series sid "2000-01-01" = Some (df, info)).
  { unfold extract_series. simpl. now rewrite Hdata, Hinfo. }
  assert (Hne : df <> []).
  { assert (Hin : In (mk_observation sid (fst dv) (snd dv)) df).
    { unfold df, dropna. apply filter_In. split; [|exact Hx].
      apply in_map_iff. now exists dv. }
    intros Heq. rewrite Heq in Hin. contradiction. }
  pose proof (transform_data_nonempty df Hne) as Ht.
  exists df, (map replace_inf_row (add_metrics df)),
         (loaded sid title category info (map replace_inf_row (add_metrics df)) d).
  split; [exact Hex|]. split; [exact Ht|].
  pose proof (process_series_cases sid d) as Hc.
  rewrite Hcat, Hex, Ht in Hc.
  split; [exact Hc|]. split.
  - exact (select_upsert_same _ _ md_series_id String.eqb string_eqb_spec
             (metadata_of sid title category info) (series_metadata d)).
  - intros Hnd row Hrow.
    pose proof (extracted_keys _ _ _ _ _ _ Hdata Hex Ht Hnd) as Hkeys.
    unfold loaded. simpl. split.
    + now apply stored_metrics.
    + now apply stored_observations.
Qed.

(** X18: a second run on unchanged data leaves the observations and the
    metrics as they are.  On tables without repeated keys, when
    [process_series] has returned [True], running it again with the same
    answers from FRED returns [True] again, and [observations] and
    [calculated_metrics] are the tables the first run left.  (Nothing is
    said of [series_metadata]: the row of the series is written again, and in
    the database its [last_updated] column, which is not modelled, takes the
    time of the second run.) *)
Theorem process_series_rerun (sid : string) (d d' : database) :
  unique_keys d ->
  process_series sid d = (Ok true, d') ->
  exists d'',
    process_series sid d' = (Ok true, d'') /\
    observations d'' = observations d' /\
    calculated_metrics d'' = calculated_metrics d'.
Proof.
  intros [H1 [H2 H3]] Hp.
  pose proof (process_series_cases sid d) as Hc.
  pose proof (process_series_cases sid d') as Hc'.
  destruct (indicator indicators sid) as [[title category]|]; [|congruence].
  destruct (extract_series sid "2000-01-01") as [[df info]|]; [|congruence].
  destruct (transform_data (Some df)) as [out|]; [|congruence].
  rewrite Hc in Hp. inversion Hp; subst d'.
  eexists. split; [exact Hc'|].
  unfold loaded. simpl. split.
  - now apply upsert_all_idempotent; [apply dated_key_eqb_spec|].
  - now apply upsert_all_idempotent; [apply dated_key_eqb_spec|].
Qed.

End OnDatabase.

(** ** A run on sample data *)

(** FRED answering for GDP only, with one missing value among three. *)
Definition sample_get_series (sid start_date : string) : result (list (Z * float64)) :=
  if String.eqb sid "GDP"
  then Ok [(19723%Z, Fin 100); (19754%Z, NaN); (19783%Z, Fin 110)]
  else Raise (CollaboratorError "Bad Request").

Definition sample_get_series_info (sid : string) : result series_info :=
  Ok [("units", "Billions of Dollars"); ("frequency_short", "Q")]%string.

Definition sample_run : Collaborators database :=
  on_database sample_get_series sample_get_series_info.

Definition empty_database : database := mk_database [] [] [].

Definition sample_database : database :=
  snd (@process_series _ sample_run "GDP" empty_database).

Lemma empty_database_unique_keys : unique_keys empty_database.
Proof. repeat constructor. Defined.

Lemma sample_process_series :
  @process_series _ sample_run "GDP" empty_database = (Ok true, sample_database).
Proof. reflexivity. Defined.

(** X10 for GDP in the sample run. *)
Lemma process_series_success_witness :
  exists title category df info out d1 d2,
    indicator indicators "GDP" = Some (title, category) /\
    @extract_series _ sample_run "GDP" "2000-01-01" = Some (df, info) /\
    df <> [] /\
    transform_data (Some df) = Some out /\
    length out = length df /\
    @load_metadata _ sample_run "GDP" info category empty_database = (Ok tt, d1) /\
    @load_observations _ sample_run out d1 = (Ok tt, d2) /\
    @load_metrics _ sample_run out d2 = (Ok tt, sample_database).
Proof.
  exact (@process_series_success _ sample_run "GDP" empty_database sample_database
           sample_process_series).
Defined.

(** X11 for INDPRO in the sample run, where FRED raises. *)
Lemma process_series_without_data_witness :
  snd (@process_series _ sample_run "INDPRO" empty_database) = empty_database /\
  fst (@process_series _ sample_run "INDPRO" empty_database) <> Ok true /\
  forall rest s f,
    @run_series _ sample_run ("INDPRO"%string :: rest) s f empty_database =
    @run_series _ sample_run rest s (S f) empty_database.
Proof.
  exact (@process_series_without_data _ sample_run "INDPRO" empty_database
           (or_intror (or_introl eq_refl))).
Defined.

(** X15 for the transformed frame of early 2024 on empty tables. *)
Lemma frame_loads_idempotent_witness :
  @load_observations _ sample_run (map replace_inf_row (add_metrics spring_2024))
    (snd (@load_observations _ sample_run
            (map replace_inf_row (add_metrics spring_2024)) empty_database)) =
  (Ok tt, snd (@load_observations _ sample_run
                 (map replace_inf_row (add_metrics spring_2024)) empty_database)) /\
  @load_metrics _ sample_run (map replace_inf_row (add_metrics spring_2024))
    (snd (@load_metrics _ sample_run
            (map replace_inf_row (add_metrics spring_2024)) empty_database)) =
  (Ok tt, snd (@load_metrics _ sample_run
                 (map replace_inf_row (add_metrics spring_2024)) empty_database)).
Proof.
  exact (frame_loads_idempotent sample_get_series sample_get_series_info
           (map replace_inf_row (add_metrics spring_2024)) empty_database
           empty_database_unique_keys).
Defined.

(** X16 for the sample run from empty tables. *)
Lemma run_full_pipeline_keeps_unique_keys_witness :
  unique_keys (snd (@run_full_pipeline _ sample_run empty_database)).
Proof.
  exact (run_full_pipeline_keeps_unique_keys sample_get_series sample_get_series_info
           empty_database empty_database_unique_keys).
Defined.

(** X17 for GDP in the sample run. *)
Lemma process_series_stores_witness :
  exists df out d',
    @extract_series _ sample_run "GDP" "2000-01-01" =
    Some (df, [("units", "Billions of Dollars"); ("frequency_short", "Q")]%string) /\
    transform_data (Some df) = Some out /\
    @process_series _ sample_run "GDP" empty_database = (Ok true, d') /\
    select md_series_id String.eqb "GDP"%string (series_metadata d') =
    Some (metadata_of "GDP" "Gross Domestic Product" "Output & Growth"
            [("units", "Billions of Dollars"); ("frequency_short", "Q")]%string) /\
    (NoDup (map fst [(19723%Z, Fin 100); (19754%Z, NaN); (19783%Z, Fin 110)]) ->
     forall row, In row out ->
       select metrics_key dated_key_eqb (metrics_key row) (calculated_metrics d') = Some row /\
       select observation_key dated_key_eqb (metrics_key row) (observations d') =
       Some (observation_of row)).
Proof.
  refine (process_series_stores sample_get_series sample_get_series_info
            "GDP" "Gross Domestic Product" "Output & Growth"
            [(19723%Z, Fin 100); (19754%Z, NaN); (19783%Z, Fin 110)]
            [("units", "Billions of Dollars"); ("frequency_short", "Q")]%string
            empty_database eq_refl eq_refl eq_refl _).
  exists (19723%Z, Fin 100). split; [now left|reflexivity].
Defined.

(** X18 for GDP in the sample run. *)
Lemma process_series_rerun_witness :
  exists d'',
    @process_series _ sample_run "GDP" sample_database = (Ok true, d'') /\
    observations d'' = observations sample_database /\
    calculated_metrics d'' = calculated_metrics sample_database.
Proof.
  exact (process_series_rerun sample_get_series sample_get_series_info
           "GDP" empty_database sample_database
           empty_database_unique_keys sample_process_series).
Defined.

(** * Part IX: construction of the pipeline

    [FredETLPipeline.__init__]: the two environment variables are validated,
    the FRED client and the engine are built, and the banner is printed; its
    last line evaluates [os.getenv('DATABASE_URL').split('@')[1]]. *)

(** What [__init__] can raise. *)
Inductive init_error : Type :=
| ValueError (message : string)
| IndexError
| ConstructorError (e : exn).

(** [s.split(sep)] for a one-character separator. *)
Fixpoint split_on (sep : ascii) (s : string) : list string :=
  match s with
  | EmptyString => [EmptyString]
  | String c rest =>
      if Ascii.eqb c sep then EmptyString :: split_on sep rest
      else match split_on sep rest with
           | [] => [String c EmptyString]
           | piece :: pieces => String c piece :: pieces
           end
  end.

(** [sep.join(pieces)] *)
Fixpoint join_with (sep : ascii) (pieces : list string) : string :=
  match pieces with
  | [] => EmptyString
  | [p] => p
  | p :: rest => (p ++ String sep (join_with sep rest))%string
  end.

(** Python's truth value of [os.getenv(name)]. *)
Definition env_set (env : string -> option string) (name : string) : option string :=
  match env name with
  | Some EmptyString => None
  | other => other
  end.

(** The object [__init__] leaves behind. *)
Record pipeline (F E : Type) : Type := mk_pipeline {
  fred : F;
  engine : E;
  catalog : list (string * (string * string))
}.

Arguments mk_pipeline {F E} fred engine catalog.
Arguments fred {F E} p.
Arguments engine {F E} p.
Arguments catalog {F E} p.

Section Construction.

Variables F E : Type.

(** [Fred(api_key=...)] and [create_engine(url)]. *)
Variable make_fred : string -> result F.
Variable create_engine : string -> result E.

Definition init (env : string -> option string) : init_error + pipeline F E :=
  match env_set env "FRED_API_KEY" with
  | None => inl (ValueError "FRED_API_KEY not found in environment variables")
  | Some api_key =>
      match env_set env "DATABASE_URL" with
      | None => inl (ValueError "DATABASE_URL not found in environment variables")
      | Some url =>
          match make_fred api_key with
          | Raise e => inl (ConstructorError e)
          | Ok client =>
              match create_engine url with
              | Raise e => inl (ConstructorError e)
              | Ok eng =>
                  match nth_error (split_on "@" url) 1 with
                  | None => inl IndexError
                  | Some _ => inr (mk_pipeline client eng indicators)
                  end
              end
          end
      end
  end.

End Construction.

Arguments init {F E} make_fred create_engine env.

Lemma split_on_nonempty (sep : ascii) (s : string) : split_on sep s <> [].
Proof.
  destruct s as [|c rest]; simpl; [discriminate|].
  destruct (Ascii.eqb c sep); [discriminate|].
  destruct (split_on sep rest); discriminate.
Qed.

(** Splitting and joining again gives the string back. *)
Lemma join_split (sep : ascii) (s : string) : join_with sep (split_on sep s) = s.
Proof.
  induction s as [|c rest IH]; [reflexivity|]. simpl.
  destruct (Ascii.eqb c sep) eqn:E.
  - apply Ascii.eqb_eq in E. subst c.
    pose proof (split_on_nonempty sep rest) as Hne.
    destruct (split_on sep rest) as [|p ps]; [contradiction|].
    simpl in *. now rewrite IH.
  - pose proof (split_on_nonempty sep rest) as Hne.
    destruct (split_on sep rest) as [|p ps]; [contradiction|].
    destruct ps as [|q ps]; simpl in *; now rewrite <- IH.
Qed.

(** There is a second piece exactly when the separator occurs. *)
Lemma split_on_second (sep : ascii) (s : string) :
  nth_error (split_on sep s) 1 <> None <-> In sep (list_ascii_of_string s).
Proof.
  induction s as [|c rest IH]; simpl; [tauto|].
  pose proof (split_on_nonempty sep rest) as Hne.
  destruct (Ascii.eqb c sep) eqn:E.
  - apply Ascii.eqb_eq in E. subst c.
    destruct (split_on sep rest) as [|p ps]; [contradiction|]. simpl.
    split; [auto|discriminate].
  - apply Ascii.eqb_neq in E.
    destruct (split_on sep rest) as [|p ps]; [contradiction|]. simpl in *.
    rewrite IH. split; [auto|]. intros [Hc|Hin]; [contradiction|assumption].
Qed.

(** X19: what it takes to construct the pipeline.  [__init__] returns only
    if FRED_API_KEY and DATABASE_URL are both set and non-empty and
    DATABASE_URL contains the character [@]; the catalogue is then the fixed
    one.  With both variables set and both constructors returning, a
    DATABASE_URL without [@] makes it raise [IndexError]. *)
Theorem init_requirements (F E : Type) (make_fred : string -> result F)
        (create_engine : string -> result E) (env : string -> option string) :
  (forall p, init make_fred create_engine env = inr p ->
     exists api_key url,
       env "FRED_API_KEY"%string = Some api_key /\ api_key <> EmptyString /\
       env "DATABASE_URL"%string = Some url /\ url <> EmptyString /\
       In "@"%char (list_ascii_of_string url) /\
       make_fred api_key = Ok (fred p) /\
       create_engine url = Ok (engine p) /\
       catalog p = indicators) /\
  (forall api_key url client eng,
     env "FRED_API_KEY"%string = Some api_key -> api_key <> EmptyString ->
     env "DATABASE_URL"%string = Some url -> url <> EmptyString ->
     make_fred api_key = Ok client -> create_engine url = Ok eng ->
     ~ In "@"%char (list_ascii_of_string url) ->
     init make_fred create_engine env = inl IndexError).
Proof.
  split.
  - intros p Hp. unfold init, env_set in Hp.
    destruct (env "FRED_API_KEY"%string) as [[|c key]|] eqn:Ek; try discriminate.
    destruct (env "DATABASE_URL"%string) as [[|c' url]|] eqn:Eu; try discriminate.
    destruct (make_fred (String c key)) as [client|e] eqn:Ef; [|discriminate].
    destruct (create_engine (String c' url)) as [eng|e] eqn:Ee; [|discriminate].
    destruct (nth_error (split_on "@" (String c' url)) 1) as [piece|] eqn:Es;
      [|discriminate].
    inversion Hp; subst p. simpl.
    exists (String c key), (String c' url).
    repeat split; try discriminate; try assumption.
    apply split_on_second. rewrite Es. discriminate.
  - intros api_key url client eng Hk Hkne Hu Hune Hf He Hat.
    unfold init, env_set. rewrite Hk, Hu.
    destruct api_key as [|c key]; [contradiction|].
    destruct url as [|c' url]; [contradiction|].
    rewrite Hf, He.
    destruct (nth_error (split_on "@" (String c' url)) 1) as [piece|] eqn:Es;
      [|reflexivity].
    exfalso. apply Hat. apply split_on_second. rewrite Es. discriminate.
Qed.

(** * Part X: the export to Google Sheets

    [export_to_sheets.py].  The database and the Sheets service are outside
    the program: they are a state [world] the calls act on, each call
    returning or raising as the world decides.  The calls made are logged in
    the order they are made.  The two SQL texts are named, not spelled out;
    printing is left out. *)

Inductive sheets_error : Type :=
| FileNotFoundError
| WorksheetNotFound
| ColumnKeyError (name : string)
| OtherError (message : string).

Inductive query : Type :=
| DashboardQuery
| SnapshotQuery.

Section SheetsExport.

(** The non-missing values [read_sql] returns (numbers, dates, text). *)
Variable atom : Type.

Inductive sheet_cell : Type :=
| Missing
| Text (s : string)
| Atom (a : atom).

(** [str(x)] as [astype(str)] applies it to a cell. *)
Variable to_text : sheet_cell -> string.

Record frame : Type := mk_frame {
  columns : list string;
  data_rows : list (list sheet_cell)
}.

Inductive call : Type :=
| ReadSql (q : query)
| GetSheetsClient
| OpenByKey (key : option string)
| GetWorksheet (title : string)
| Clear (title : string)
| AddWorksheet (title : string) (rows cols : nat)
| Update (title : string) (values : list (list sheet_cell)).

Variable world : Type.
Variable read_sql : query -> world -> (sheets_error + frame) * world.
Variable respond : call -> world -> option sheets_error * world.
Variable sheet_id : option string.

(** Computations that act on the world, may raise, and log their calls. *)
Definition action (A : Type) : Type := world -> (sheets_error + A) * world * list call.

Definition ret {A : Type} (a : A) : action A := fun w => (inr a, w, []).

Definition bind {A B : Type} (m : action A) (k : A -> action B) : action B :=
  fun w =>
    match m w with
    | (inl e, w', log) => (inl e, w', log)
    | (inr a, w', log) =>
        match k a w' with
        | (r, w'', log') => (r, w'', log ++ log')
        end
    end.

Definition lift {A : Type} (r : sheets_error + A) : action A := fun w => (r, w, []).

Definition perform (c : call) : action unit :=
  fun w =>
    match respond c w with
    | (Some e, w') => (inl e, w', [c])
    | (None, w') => (inr tt, w', [c])
    end.

Definition fetch (q : query) : action frame :=
  fun w => match read_sql q w with (r, w') => (r, w', [ReadSql q]) end.

(** [try: body except gspread.WorksheetNotFound: handler] *)
Definition or_if_not_found {A : Type} (body handler : action A) : action A :=
  fun w =>
    match body w with
    | (inl WorksheetNotFound, w', log) =>
        match handler w' with
        | (r, w'', log') => (r, w'', log ++ log')
        end
    | other => other
    end.

Fixpoint index_of (name : string) (names : list string) : option nat :=
  match names with
  | [] => None
  | n :: rest => if String.eqb n name then Some 0%nat
                 else option_map S (index_of name rest)
  end.

Fixpoint map_at {A : Type} (f : A -> A) (j : nat) (l : list A) : list A :=
  match l, j with
  | [], _ => []
  | a :: rest, O => f a :: rest
  | a :: rest, S j' => a :: map_at f j' rest
  end.

(** [df[name] = df[name].astype(str)] *)
Definition astype_str (name : string) (df : frame) : sheets_error + frame :=
  match index_of name (columns df) with
  | None => inl (ColumnKeyError name)
  | Some j =>
      inr (mk_frame (columns df)
             (map (map_at (fun c => Text (to_text c)) j) (data_rows df)))
  end.

(** [df.fillna('')] *)
Definition fillna_empty (df : frame) : frame :=
  mk_frame (columns df)
    (map (map (fun c => match c with Missing => Text EmptyString | _ => c end))
         (data_rows df)).

(** [[header] + data] *)
Definition sheet_values (df : frame) : list (list sheet_cell) :=
  map Text (columns df) :: data_rows df.

(** One sheet: open and clear it, or add it; convert; write. *)
Definition write_sheet (title : string) (rows cols : nat) (date_column : string)
           (df : frame) : action frame :=
  bind (or_if_not_found
          (bind (perform (GetWorksheet title)) (fun _ => perform (Clear title)))
          (perform (AddWorksheet title rows cols)))
       (fun _ =>
          bind (lift (astype_str date_column df))
               (fun df1 =>
                  let df2 := fillna_empty df1 in
                  bind (perform (Update title (sheet_values df2)))
                       (fun _ => ret df2))).

(** [export_dashboard_data] *)
Definition export_dashboard_data : action bool :=
  bind (fetch DashboardQuery) (fun dashboard_df =>
  bind (fetch SnapshotQuery) (fun snapshot_df =>
  bind (perform GetSheetsClient) (fun _ =>
  bind (perform (OpenByKey sheet_id)) (fun _ =>
  bind (write_sheet "Dashboard Data" 1000 20 "observation_date" dashboard_df) (fun _ =>
  bind (write_sheet "Current Snapshot" 50 15 "as_of_date" snapshot_df) (fun _ =>
  ret true)))))).

(** [main] of the export script: its return value, the world and the log. *)
Definition export_main (w : world) : bool * world * list call :=
  match export_dashboard_data w with
  | (inr _, w', log) => (true, w', log)
  | (inl FileNotFoundError, w', log) => (true, w', log)
  | (inl _, w', log) => (false, w', log)
  end.

(** Whether a call is an [update]. *)
Definition is_update (c : call) : bool :=
  match c with Update _ _ => true | _ => false end.

(** Whether every [update] of a log comes right after a [clear] or an
    [add_worksheet] of the same sheet; [prev] is the call before the log. *)
Fixpoint replaces_only (prev : option call) (log : list call) : bool :=
  match log with
  | [] => true
  | c :: rest =>
      match c with
      | Update t _ =>
          match prev with
          | Some (Clear t') => String.eqb t t'
          | Some (AddWorksheet t' _ _) => String.eqb t t'
          | _ => false
          end
      | _ => true
      end && replaces_only (Some c) rest
  end.

Lemma last_cons_default {A : Type} (a d : A) (l : list A) :
  last (a :: l) d = last l a.
Proof.
  revert a d. induction l as [|b l IH]; intros a d; [reflexivity|].
  change (last (a :: b :: l) d) with (last (b :: l) d).
  now rewrite !IH.
Qed.

Lemma replaces_only_spec (log : list call) :
  forall prev, replaces_only prev log = true ->
  forall before title values rest,
    log = before ++ Update title values :: rest ->
    match last (map Some before) prev with
    | Some (Clear t) => t = title
    | Some (AddWorksheet t _ _) => t = title
    | _ => False
    end.
Proof.
  induction log as [|c log IH]; intros prev Hok before title values rest Heq.
  - destruct before; discriminate.
  - simpl in Hok. apply andb_true_iff in Hok. destruct Hok as [Hc Hrest].
    destruct before as [|b before]; simpl in Heq; inversion Heq; subst.
    + simpl. destruct prev as [[]|]; try discriminate;
        apply String.eqb_eq in Hc; congruence.
    + specialize (IH (Some b) Hrest before title values rest eq_refl).
      rewrite map_cons, last_cons_default. exact IH.
Qed.

Lemma last_map_Some (before : list call) (c : call) (prev : option call) :
  last (map Some before) prev = Some c ->
  (before = [] /\ prev = Some c) \/ exists earlier, before = earlier ++ [c].
Proof.
  destruct before as [|b before _] using rev_ind.
  - simpl. auto.
  - rewrite map_app. change (map Some [b]) with [Some b]. rewrite last_last.
    intros Heq. inversion Heq; subst. right. now exists before.
Qed.

Ltac run_export :=
  repeat (
    simpl;
    match goal with
    | |- context [read_sql ?q ?w] =>
        let E := fresh "Eread" in destruct (read_sql q w) as [[?|?] ?] eqn:E
    | |- context [respond ?c ?w] =>
        let E := fresh "Ecall" in destruct (respond c w) as [[[]|] ?] eqn:E
    | |- context [astype_str ?n ?d] =>
        let E := fresh "Etype" in destruct (astype_str n d) eqn:E
    end).

Lemma export_replaces_only (w : world) :
  replaces_only None (snd (export_dashboard_data w)) = true.
Proof.
  unfold export_dashboard_data, write_sheet, bind, or_if_not_found, perform, fetch,
    lift, ret.
  run_export; reflexivity.
Qed.

(** X20: sheets are replaced, never appended to.  Whatever the database and
    the Sheets service answer, every [update] call of [export_dashboard_data]
    comes right after a [clear] or an [add_worksheet] of the same sheet. *)
Theorem updates_follow_clear_or_add (w : world) :
  forall before title values rest,
    snd (export_dashboard_data w) = before ++ Update title values :: rest ->
    exists earlier,
      before = earlier ++ [Clear title] \/
      exists rows cols, before = earlier ++ [AddWorksheet title rows cols].
Proof.
  intros before title values rest Heq.
  pose proof (replaces_only_spec _ None (export_replaces_only w) _ _ _ _ Heq) as Hlast.
  destruct (last (map Some before) None) as [c|] eqn:El; [|contradiction].
  destruct (last_map_Some _ _ _ El) as [[_ Hn]|[earlier ->]]; [discriminate|].
  exists earlier. destruct c; try contradiction; subst.
  - now left.
  - right. eauto.
Qed.

(** No cell of the rows is missing. *)
Definition no_missing (rows : list (list sheet_cell)) : Prop :=
  Forall (Forall (fun c => c <> Missing)) rows.

Lemma map_at_length {A : Type} (f : A -> A) (j : nat) (l : list A) :
  length (map_at f j l) = length l.
Proof.
  revert j. induction l as [|a l IH]; intros [|j]; simpl; auto.
Qed.

Lemma astype_str_shape (name : string) (df df' : frame) :
  astype_str name df = inr df' ->
  columns df' = columns df /\ length (data_rows df') = length (data_rows df).
Proof.
  unfold astype_str. destruct (index_of name (columns df)); [|discriminate].
  intros Heq. inversion Heq; subst. simpl. now rewrite length_map.
Qed.

Lemma fillna_no_missing (df : frame) : no_missing (data_rows (fillna_empty df)).
Proof.
  unfold no_missing, fillna_empty. simpl.
  apply Forall_map, Forall_forall. intros row _.
  apply Forall_map, Forall_forall. intros c _. destruct c; discriminate.
Qed.

Lemma fillna_shape (df : frame) :
  columns (fillna_empty df) = columns df /\
  length (data_rows (fillna_empty df)) = length (data_rows df).
Proof.
  unfold fillna_empty. simpl. now rewrite length_map.
Qed.

(** X21: what a successful export has written.  When
    [export_dashboard_data] returns, it returns [True], both queries were
    answered, and exactly two [update] calls were made: first to
    'Dashboard Data', then to 'Current Snapshot', each with the column names
    of the frame read as first row, followed by as many rows as the frame
    has, none of them holding a missing cell. *)
Theorem export_success (w : world) (b : bool) :
  fst (fst (export_dashboard_data w)) = inr b ->
  b = true /\
  exists dash snap w1 w2 v1 v2,
    read_sql DashboardQuery w = (inr dash, w1) /\
    read_sql SnapshotQuery w1 = (inr snap, w2) /\
    filter is_update (snd (export_dashboard_data w)) =
    [ Update "Dashboard Data" (map Text (columns dash) :: v1);
      Update "Current Snapshot" (map Text (columns snap) :: v2) ] /\
    length v1 = length (data_rows dash) /\
    length v2 = length (data_rows snap) /\
    no_missing v1 /\ no_missing v2.
Proof.
  unfold export_dashboard_data, write_sheet, bind, or_if_not_found, perform, fetch,
    lift, ret.
  run_export; simpl; intros Hb; try discriminate; inversion Hb; (split; [reflexivity|]);
    simpl;
    lazymatch goal with
    | E1 : read_sql DashboardQuery w = (inr ?d, ?w1),
      E2 : read_sql SnapshotQuery ?w1 = (inr ?s, ?w2),
      T1 : astype_str "observation_date" ?d = inr ?d1,
      T2 : astype_str "as_of_date" ?s = inr ?s1 |- _ =>
        destruct (astype_str_shape _ _ _ T1) as [C1 L1];
        destruct (astype_str_shape _ _ _ T2) as [C2 L2];
        destruct (fillna_shape d1) as [C1' L1'];
        destruct (fillna_shape s1) as [C2' L2'];
        exists d, s, w1, w2, (data_rows (fillna_empty d1)), (data_rows (fillna_empty s1));
        split; [first [exact E1 | reflexivity]|];
        split; [first [exact E2 | reflexivity]|];
        split; [unfold sheet_values; rewrite C1', C1, C2', C2; reflexivity|];
        split; [congruence|]; split; [congruence|];
        split; apply fillna_no_missing
    end.
Qed.

(** X22: the export script without its credentials file.  When both queries
    are answered and [get_sheets_client] then raises, [main] has made no call
    to the Sheets service beyond that one; it returns [True] if what was
    raised is [FileNotFoundError] and [False] for anything else. *)
Theorem export_main_without_client
        (w w1 w2 w3 : world) (dash snap : frame) (e : sheets_error) :
  read_sql DashboardQuery w = (inr dash, w1) ->
  read_sql SnapshotQuery w1 = (inr snap, w2) ->
  respond GetSheetsClient w2 = (Some e, w3) ->
  export_main w =
  (match e with FileNotFoundError => true | _ => false end, w3,
   [ReadSql DashboardQuery; ReadSql SnapshotQuery; GetSheetsClient]).
Proof.
  intros E1 E2 E3.
  unfold export_main, export_dashboard_data, bind, fetch, perform.
  rewrite E1, E2, E3. destruct e; reflexivity.
Qed.

End SheetsExport.

(** ** An export on sample answers *)

Definition sample_dashboard : frame Z :=
  mk_frame Z ["observation_date"; "unemployment_rate"]%string
    [ [Atom Z 19723%Z; Missing Z]; [Atom Z 19754%Z; Atom Z 4%Z] ].

Definition sample_snapshot : frame Z :=
  mk_frame Z ["series_id"; "as_of_date"]%string
    [ [Text Z "UNRATE"; Atom Z 19754%Z] ].

Definition sample_to_text (c : sheet_cell Z) : string :=
  match c with
  | Text _ s => s
  | _ => "2024-01-01"
  end.

Definition sample_read_sql (q : query) (w : unit) : (sheets_error + frame Z) * unit :=
  match q with
  | DashboardQuery => (inr sample_dashboard, w)
  | SnapshotQuery => (inr sample_snapshot, w)
  end.

(** A Sheets service that accepts every call. *)
Definition sheets_available (c : call Z) (w : unit) : option sheets_error * unit :=
  (None, w).

(** A run without the credentials file. *)
Definition credentials_missing (c : call Z) (w : unit) : option sheets_error * unit :=
  match c with
  | GetSheetsClient _ => (Some FileNotFoundError, w)
  | _ => (None, w)
  end.

Definition sample_export : unit -> (sheets_error + bool) * unit * list (call Z) :=
  export_dashboard_data Z sample_to_text unit sample_read_sql sheets_available
    (Some "sheet-id"%string).

(** X21 on the sample answers. *)
Lemma export_success_witness :
  fst (fst (sample_export tt)) = inr true /\
  true = true /\
  exists dash snap w1 w2 v1 v2,
    sample_read_sql DashboardQuery tt = (inr dash, w1) /\
    sample_read_sql SnapshotQuery w1 = (inr snap, w2) /\
    filter (is_update Z) (snd (sample_export tt)) =
    [ Update Z "Dashboard Data" (map (Text Z) (columns Z dash) :: v1);
      Update Z "Current Snapshot" (map (Text Z) (columns Z snap) :: v2) ] /\
    length v1 = length (data_rows Z dash) /\
    length v2 = length (data_rows Z snap) /\
    no_missing Z v1 /\ no_missing Z v2.
Proof.
  split; [reflexivity|].
  exact (export_success Z sample_to_text unit sample_read_sql sheets_available
           (Some "sheet-id"%string) tt true eq_refl).
Defined.

(** X22 on the sample answers, the credentials file missing. *)
Lemma export_main_without_client_witness :
  export_main Z sample_to_text unit sample_read_sql credentials_missing
    (Some "sheet-id"%string) tt =
  (true, tt, [ReadSql Z DashboardQuery; ReadSql Z SnapshotQuery; GetSheetsClient Z]).
Proof.
  exact (export_main_without_client Z sample_to_text unit sample_read_sql
           credentials_missing (Some "sheet-id"%string) tt tt tt tt
           sample_dashboard sample_snapshot FileNotFoundError
           eq_refl eq_refl eq_refl).
Defined.

(** X20 on the sample answers, for the update of 'Dashboard Data'. *)
Lemma updates_follow_clear_or_add_witness :
  exists earlier,
    [ ReadSql Z DashboardQuery; ReadSql Z SnapshotQuery; GetSheetsClient Z;
      OpenByKey Z (Some "sheet-id"%string); GetWorksheet Z "Dashboard Data";
      Clear Z "Dashboard Data" ] = earlier ++ [Clear Z "Dashboard Data"] \/
    exists rows cols,
      [ ReadSql Z DashboardQuery; ReadSql Z SnapshotQuery; GetSheetsClient Z;
        OpenByKey Z (Some "sheet-id"%string); GetWorksheet Z "Dashboard Data";
        Clear Z "Dashboard Data" ] = earlier ++ [AddWorksheet Z "Dashboard Data" rows cols].
Proof.
  exact (updates_follow_clear_or_add Z sample_to_text unit sample_read_sql
           sheets_available (Some "sheet-id"%string) tt
           [ ReadSql Z DashboardQuery; ReadSql Z SnapshotQuery; GetSheetsClient Z;
             OpenByKey Z (Some "sheet-id"%string); GetWorksheet Z "Dashboard Data";
             Clear Z "Dashboard Data" ]
           "Dashboard Data"%string
           (sheet_values Z
              (fillna_empty Z
                 (mk_frame Z ["observation_date"; "unemployment_rate"]%string
                    [ [Text Z "2024-01-01"; Missing Z]; [Text Z "2024-01-01"; Atom Z 4%Z] ])))
           [ GetWorksheet Z "Current Snapshot"; Clear Z "Current Snapshot";
             Update Z "Current Snapshot"
               (sheet_values Z
                  (fillna_empty Z
                     (mk_frame Z ["series_id"; "as_of_date"]%string
                        [ [Text Z "UNRATE"; Text Z "2024-01-01"] ]))) ]
           eq_refl).
Defined.

(** * Part XI: the guards, evaluated in binary64

    The arithmetic of [transform_data] over Rocq's primitive floats, which
    are the IEEE 754 binary64 numbers with round-to-nearest-even operations
    of Python's [float] and numpy's [float64].  Each example evaluates it at
    an input just outside, or inside, one of the guards of the statements
    above. *)

Module Binary64.

Import PrimFloat.
Local Open Scope float_scope.

(** The double that the literal [0.1] denotes, and that of [1e308]. *)
Definition tenth : float := 0x1.999999999999ap-4.

Definition huge : float := 0x1.1ccf385ebc8ap+1023.

(** One cell of [pct_change(periods) * 100]. *)
Definition pct_cell64 (cur prev : float) : float := (cur / prev - 1) * 100.

(** [replace([np.inf, -np.inf], np.nan)] on one cell. *)
Definition replace_inf64 (x : float) : float := if is_infinity x then nan else x.

(** [numpy.sum] over a short column: the cells are added from left to right. *)
Definition sum64 (xs : list float) : float := fold_left add xs 0.

Definition count64 (xs : list float) : float :=
  of_uint63 (Uint63.of_Z (Z.of_nat (length xs))).

(** [Series.mean()] and [Series.std()] (ddof = 1) over a column without NaN. *)
Definition mean64 (xs : list float) : float := sum64 xs / count64 xs.

Definition std64 (xs : list float) : float :=
  let avg := mean64 xs in
  sqrt (sum64 (map (fun v => (avg - v) * (avg - v)) xs) / (count64 xs - 1)).

(** The [z_score] column: lines 191-196. *)
Definition z_column64 (xs : list float) : list float :=
  if ltb 0 (std64 xs)
  then map (fun v => (v - mean64 xs) / std64 xs) xs
  else map (fun _ => 0) xs.

(** Outside [quotient_in_range]: from the base 1 to the finite value 1e308
    the change overflows, and the cell is missing after the replacement. *)
Example change_overflows :
  is_finite huge = true /\ is_zero 1 = false /\
  is_infinity (pct_cell64 huge 1) = true /\
  is_nan (replace_inf64 (pct_cell64 huge 1)) = true.
Proof. repeat split; reflexivity. Qed.

(** Inside: from 100 to 110 and from 110 to 121 the change is the double
    10.000000000000009, a few units in the last place off 10. *)
Example change_of_a_tenth :
  pct_cell64 110 100 = 0x1.4000000000005p+3 /\
  pct_cell64 121 110 = 0x1.4000000000005p+3.
Proof. split; reflexivity. Qed.

(** Outside [in_range float_range]: the sum of two finite values overflows,
    and so does the mean of a window that holds them. *)
Example window_sum_overflows :
  is_finite 0x1p1023 = true /\ is_finite 0x1.8p1023 = true /\
  is_infinity (sum64 [0x1p1023; 0x1.8p1023] / 2) = true.
Proof. repeat split; reflexivity. Qed.

(** Small integers: the sum 331 is exact and the mean is rounded once, to
    the double 110.33333333333333. *)
Example window_mean_of_small_integers :
  sum64 [100; 110; 121] = 331 /\
  sum64 [100; 110; 121] / 3 = 0x1.b955555555555p+6.
Proof. split; reflexivity. Qed.

(** Outside [sum_is_exact]: the mean of three cells 0.1 is the next double
    above 0.1, the standard deviation is positive and the three z-scores are
    one negative number (-0.8164...). *)
Example constant_series_rounds :
  mean64 [tenth; tenth; tenth] = 0x1.999999999999bp-4 /\
  ltb 0 (std64 [tenth; tenth; tenth]) = true /\
  map (fun z => ltb z 0) (z_column64 [tenth; tenth; tenth]) = [true; true; true].
Proof. repeat split; reflexivity. Qed.

(** Inside: the mean of two cells 5 is 5, the standard deviation is 0 and
    the z-scores are set to 0. *)
Example constant_series_exact :
  mean64 [5; 5] = 5 /\ std64 [5; 5] = 0 /\ z_column64 [5; 5] = [0; 0].
Proof. repeat split; reflexivity. Qed.

(** Outside [in_range square_range]: the squared deviations overflow.  With
    two different values the standard deviation is infinite and the z-scores
    are zeros; with two equal values the sum overflows and the z-scores are
    NaN. *)
Example squares_overflow :
  is_infinity (std64 [0x1p1023; 0x1p1022]) = true /\
  map is_zero (z_column64 [0x1p1023; 0x1p1022]) = [true; true] /\
  map is_nan (z_column64 [0x1p1023; 0x1p1023]) = [true; true].
Proof. repeat split; reflexivity. Qed.

End Binary64.
